(** * A shallow embedding of the Medoro dataplane client (src/unnamed/part_001)

    The client signs a command into a URL ([createSignedUrl]), sends it
    ([send]) and classifies the response ([parseJsonResponse]).  The
    platform built-ins the client calls ([JSON.stringify], [JSON.parse],
    [btoa], [atob], [URLSearchParams.set]/[get], [Headers]) are written out
    here from their standards (ECMA-262, WHATWG HTML/URL/Fetch), since the
    properties of the client depend on them.  The external collaborators
    (the http-msg-sig signing primitive, [fetch], [new URL(key, origin)])
    are section variables. *)

From Stdlib Require Import ZArith Lia String Ascii.
From stdpp Require Import base gmap list.

Set Warnings "-notation-for-abbreviation,-register-all".
Open Scope Z_scope.

(** ** JavaScript strings: lists of UTF-16 code units *)

Notation jstr := (list Z) (only parsing).

(** An ASCII literal as a JavaScript string. *)
Definition lit (s : string) : jstr :=
  map (fun a => Z.of_nat (nat_of_ascii a)) (list_ascii_of_string s).

(** An ASCII literal in which the apostrophe stands for a double quote. *)
Definition litq (s : string) : jstr :=
  map (fun c => if c =? 39 then 34 else c) (lit s).

Definition unit_ok (c : Z) : bool := (0 <=? c) && (c <? 65536).

Fixpoint join_comma (l : list jstr) : jstr :=
  match l with
  | [] => []
  | [x] => x
  | x :: r => x ++ [44] ++ join_comma r
  end.

(** ** JavaScript numbers

    A finite non-zero number is represented by the decimal that
    Number::toString (ECMA-262 6.1.6.1.20) prints for it: sign, the digit
    string [s] read as a positive integer [m] without trailing zeros, and
    the exponent [e], so that the number is [±m·10^e].  Zero keeps its
    sign, and the non-finite values are explicit. *)
Inductive jsnum :=
| NFin (neg : bool) (m : Z) (e : Z)
| NZero (neg : bool)
| NInf (neg : bool)
| NNaN.

Definition num_wf (x : jsnum) : bool :=
  match x with
  | NFin _ m _ => (0 <? m) && negb (m mod 10 =? 0)
  | _ => true
  end.

Definition is_finite (x : jsnum) : bool :=
  match x with NFin _ _ _ | NZero _ => true | _ => false end.

(** Removal of trailing decimal zeros, [fuel] steps at most. *)
Fixpoint strip10 (fuel : nat) (m e : Z) : Z * Z :=
  match fuel with
  | O => (m, e)
  | S f => if (m mod 10 =? 0) then strip10 f (m / 10) (e + 1) else (m, e)
  end.

(** The number [±M·10^E] from a literal with [fuel] digits. *)
Definition mk_dec (neg : bool) (fuel : nat) (M E : Z) : jsnum :=
  if M =? 0 then NZero neg
  else let '(m, e) := strip10 fuel M E in NFin neg m e.

Definition num_of_Z (z : Z) : jsnum :=
  mk_dec (z <? 0) (Pos.size_nat (Z.to_pos (Z.abs z))) (Z.abs z) 0.

(** Comparison of a number with an integer, [None] when it is NaN
    (IsLessThan, ECMA-262 7.2.13). *)
Definition num_cmp_Z (x : jsnum) (c : Z) : option comparison :=
  match x with
  | NNaN => None
  | NInf false => Some Gt
  | NInf true => Some Lt
  | NZero _ => Some (Z.compare 0 c)
  | NFin neg m e =>
      let v := if neg then - m else m in
      if 0 <=? e then Some (Z.compare (v * 10 ^ e) c)
      else Some (Z.compare v (c * 10 ^ (- e)))
  end.

Definition js_lt (x : jsnum) (c : Z) : bool :=
  match num_cmp_Z x c with Some Lt => true | _ => false end.
Definition js_gt (x : jsnum) (c : Z) : bool :=
  match num_cmp_Z x c with Some Gt => true | _ => false end.

(** [c + x] for an integer [c] (exactly; rounding to a double is not
    modelled). *)
Definition js_add_Z (c : Z) (x : jsnum) : jsnum :=
  match x with
  | NNaN => NNaN
  | NInf n => NInf n
  | NZero _ => num_of_Z c
  | NFin neg m e =>
      let v := if neg then - m else m in
      if 0 <=? e then num_of_Z (c + v * 10 ^ e)
      else let t := c * 10 ^ (- e) + v in
           mk_dec (t <? 0) (Pos.size_nat (Z.to_pos (Z.abs t))) (Z.abs t) e
  end.

(** Decimal digits of a positive integer, most significant first. *)
Fixpoint digits_fuel (fuel : nat) (m : Z) : list Z :=
  match fuel with
  | O => []
  | S f => if m <? 10 then [m] else digits_fuel f (m / 10) ++ [m mod 10]
  end.

Definition digits (m : Z) : list Z := digits_fuel (Pos.size_nat (Z.to_pos m)) m.

Definition digit_char (d : Z) : Z := 48 + d.

(** Number::toString for a finite non-zero number [m·10^e], [m > 0]:
    with [k] digits and [n = e + k] (ECMA-262 6.1.6.1.20, steps 6-12). *)
Definition pos_toString (m e : Z) : jstr :=
  let ds := digits m in
  let k := Z.of_nat (length ds) in
  let n := e + k in
  let cs := map digit_char ds in
  if (k <=? n) && (n <=? 21) then cs ++ repeat 48 (Z.to_nat (n - k))
  else if (0 <? n) && (n <=? 21) then
    take (Z.to_nat n) cs ++ [46] ++ drop (Z.to_nat n) cs
  else if (-6 <? n) && (n <=? 0) then
    [48; 46] ++ repeat 48 (Z.to_nat (- n)) ++ cs
  else
    let ex := (if n - 1 <? 0 then 45 else 43)
                :: map digit_char (digits (Z.abs (n - 1))) in
    if k =? 1 then cs ++ [101] ++ ex
    else take 1 cs ++ [46] ++ drop 1 cs ++ [101] ++ ex.

Definition Number_toString (x : jsnum) : jstr :=
  match x with
  | NNaN => lit "NaN"
  | NZero _ => lit "0"
  | NInf false => lit "Infinity"
  | NInf true => lit "-Infinity"
  | NFin false m e => pos_toString m e
  | NFin true m e => 45 :: pos_toString m e
  end.

(** ** JavaScript values reachable from a policy or a response body

    Objects are association lists in property order. *)
Inductive jval :=
| JUndef
| JNull
| JBool (b : bool)
| JNum (n : jsnum)
| JStr (s : jstr)
| JArr (l : list jval)
| JObj (l : list (jstr * jval)).

(** ToBoolean (ECMA-262 7.1.2). *)
Definition truthy (v : jval) : bool :=
  match v with
  | JUndef | JNull => false
  | JBool b => b
  | JNum (NZero _) | JNum NNaN => false
  | JNum _ => true
  | JStr s => negb (bool_decide (s = []))
  | JArr _ | JObj _ => true
  end.

Fixpoint obj_get (k : jstr) (l : list (jstr * jval)) : option jval :=
  match l with
  | [] => None
  | (k', v) :: r => if bool_decide (k = k') then Some v else obj_get k r
  end.

(** ** JSON.stringify (ECMA-262 25.5.2, no replacer, no indentation) *)

Definition is_high (c : Z) : bool := (55296 <=? c) && (c <=? 56319).
Definition is_low (c : Z) : bool := (56320 <=? c) && (c <=? 57343).

Definition hex_char (d : Z) : Z := if d <? 10 then 48 + d else 87 + d.

(** UnicodeEscape: [\u] and four lowercase hexadecimal digits. *)
Definition unicode_escape (c : Z) : jstr :=
  [92; 117; hex_char (c / 4096); hex_char (c / 256 mod 16);
   hex_char (c / 16 mod 16); hex_char (c mod 16)].

Definition esc_unit (c : Z) : jstr :=
  if c =? 8 then [92; 98]
  else if c =? 9 then [92; 116]
  else if c =? 10 then [92; 110]
  else if c =? 12 then [92; 102]
  else if c =? 13 then [92; 114]
  else if c =? 34 then [92; 34]
  else if c =? 92 then [92; 92]
  else if c <? 32 then unicode_escape c
  else [c].

(** The body of QuoteJSONString: code points, where a lone surrogate is
    escaped and a surrogate pair is copied. *)
Fixpoint quote_units (s : jstr) : jstr :=
  match s with
  | [] => []
  | c :: r =>
      if is_high c then
        match r with
        | d :: r' => if is_low d then c :: d :: quote_units r'
                     else unicode_escape c ++ quote_units r
        | [] => unicode_escape c
        end
      else if is_low c then unicode_escape c ++ quote_units r
      else esc_unit c ++ quote_units r
  end.

Definition QuoteJSONString (s : jstr) : jstr := [34] ++ quote_units s ++ [34].

(** SerializeJSONProperty; [None] is the result [undefined]. *)
Fixpoint SerializeJSONProperty (v : jval) : option jstr :=
  match v with
  | JUndef => None
  | JNull => Some (lit "null")
  | JBool true => Some (lit "true")
  | JBool false => Some (lit "false")
  | JNum n => Some (if is_finite n then Number_toString n else lit "null")
  | JStr s => Some (QuoteJSONString s)
  | JArr l =>
      let fix elems (l : list jval) : list jstr :=
        match l with
        | [] => []
        | x :: r =>
            match SerializeJSONProperty x with
            | Some s => s
            | None => lit "null"
            end :: elems r
        end in
      Some ([91] ++ join_comma (elems l) ++ [93])
  | JObj l =>
      let fix members (l : list (jstr * jval)) : list jstr :=
        match l with
        | [] => []
        | (k, x) :: r =>
            match SerializeJSONProperty x with
            | Some s => (QuoteJSONString k ++ [58] ++ s) :: members r
            | None => members r
            end
        end in
      match members l with
      | [] => Some (lit "{}")
      | ms => Some ([123] ++ join_comma ms ++ [125])
      end
  end.

Definition JSON_stringify (v : jval) : option jstr := SerializeJSONProperty v.

(** [String(JSON.stringify(v))]: an [undefined] result becomes the
    string "undefined". *)
Definition JSON_stringify_string (v : jval) : jstr :=
  match JSON_stringify v with Some s => s | None => lit "undefined" end.

(** ** JSON.parse (ECMA-262 25.5.1, the JSON grammar of ECMA-404)

    Property order: a key met again replaces the value in place, a new
    key is appended.  (The array-index-first order of own keys is not
    modelled; it does not change which properties an object has.)  A
    number literal is read as the exact decimal it denotes; rounding to
    the nearest double is not modelled, and for every literal that
    Number::toString prints it gives back the printed number. *)

Definition is_ws (c : Z) : bool := (c =? 32) || (c =? 9) || (c =? 10) || (c =? 13).

Fixpoint skip_ws (s : jstr) : jstr :=
  match s with
  | c :: r => if is_ws c then skip_ws r else s
  | [] => []
  end.

Definition is_digit (c : Z) : bool := (48 <=? c) && (c <=? 57).

Fixpoint span_digits (s : jstr) : list Z * jstr :=
  match s with
  | c :: r => if is_digit c then let '(ds, r') := span_digits r in ((c - 48) :: ds, r')
              else ([], s)
  | [] => ([], [])
  end.

Fixpoint digits_value (acc : Z) (ds : list Z) : Z :=
  match ds with
  | [] => acc
  | d :: r => digits_value (acc * 10 + d) r
  end.

(** int: [0] or a non-zero digit and digits. *)
Definition parse_int (s : jstr) : option (list Z * jstr) :=
  match s with
  | c :: r => if c =? 48 then Some ([0], r)
              else if is_digit c then Some (span_digits s) else None
  | [] => None
  end.

Definition parse_frac (s : jstr) : option (list Z * jstr) :=
  match s with
  | c :: r =>
      if c =? 46 then
        match span_digits r with
        | ([], _) => None
        | (ds, r') => Some (ds, r')
        end
      else Some ([], s)
  | [] => Some ([], [])
  end.

Definition parse_exp (s : jstr) : option (Z * jstr) :=
  match s with
  | c :: r =>
      if (c =? 101) || (c =? 69) then
        let '(neg, r1) := match r with
                          | x :: r' => if x =? 45 then (true, r')
                                       else if x =? 43 then (false, r') else (false, r)
                          | [] => (false, r)
                          end in
        match span_digits r1 with
        | ([], _) => None
        | (ds, r') => Some ((if neg then - digits_value 0 ds else digits_value 0 ds), r')
        end
      else Some (0, s)
  | [] => Some (0, [])
  end.

Definition parse_sign (s : jstr) : bool * jstr :=
  match s with
  | c :: r => if c =? 45 then (true, r) else (false, s)
  | [] => (false, s)
  end.

(** The number literal after its sign. *)
Definition parse_unsigned (neg : bool) (s1 : jstr) : option (jsnum * jstr) :=
  match parse_int s1 with
  | None => None
  | Some (ids, s2) =>
    match parse_frac s2 with
    | None => None
    | Some (fds, s3) =>
      match parse_exp s3 with
      | None => None
      | Some (x, s4) =>
          let ds := ids ++ fds in
          Some (mk_dec neg (length ds) (digits_value 0 ds)
                       (x - Z.of_nat (length fds)), s4)
      end
    end
  end.

Definition parse_number (s : jstr) : option (jsnum * jstr) :=
  let '(neg, s1) := parse_sign s in parse_unsigned neg s1.

Definition hex_value (c : Z) : option Z :=
  if (48 <=? c) && (c <=? 57) then Some (c - 48)
  else if (97 <=? c) && (c <=? 102) then Some (c - 87)
  else if (65 <=? c) && (c <=? 70) then Some (c - 55)
  else None.

Definition hex4 (a b c d : Z) : option Z :=
  match hex_value a, hex_value b, hex_value c, hex_value d with
  | Some va, Some vb, Some vc, Some vd => Some (((va * 16 + vb) * 16 + vc) * 16 + vd)
  | _, _, _, _ => None
  end.

(** The single-character escapes of JSON strings (quote, backslash, slash, b, f, n, r, t). *)
Definition simple_escape (x : Z) : option Z :=
  if x =? 34 then Some 34
  else if x =? 92 then Some 92
  else if x =? 47 then Some 47
  else if x =? 98 then Some 8
  else if x =? 102 then Some 12
  else if x =? 110 then Some 10
  else if x =? 114 then Some 13
  else if x =? 116 then Some 9
  else None.

Definition cons_fst (c : Z) (o : option (jstr * jstr)) : option (jstr * jstr) :=
  match o with Some (t, rest) => Some (c :: t, rest) | None => None end.

(** The rest of a string literal after its opening quote. *)
Fixpoint parse_string_body (s : jstr) : option (jstr * jstr) :=
  match s with
  | [] => None
  | c :: r =>
      if c =? 34 then Some ([], r)
      else if c =? 92 then
        match r with
        | [] => None
        | x :: r' =>
            match simple_escape x with
            | Some y => cons_fst y (parse_string_body r')
            | None =>
                if x =? 117 then
                  match r' with
                  | a :: b :: c :: d :: r'' =>
                      match hex4 a b c d with
                      | Some h => cons_fst h (parse_string_body r'')
                      | None => None
                      end
                  | _ => None
                  end
                else None
            end
        end
      else if c <? 32 then None
      else cons_fst c (parse_string_body r)
  end.

Fixpoint strip_prefix (p s : jstr) : option jstr :=
  match p, s with
  | [], _ => Some s
  | a :: p', b :: s' => if a =? b then strip_prefix p' s' else None
  | _ :: _, [] => None
  end.

(** CreateDataProperty on an object under construction. *)
Fixpoint obj_put (k : jstr) (v : jval) (l : list (jstr * jval)) : list (jstr * jval) :=
  match l with
  | [] => [(k, v)]
  | (k', v') :: r => if bool_decide (k = k') then (k, v) :: r else (k', v') :: obj_put k v r
  end.

(** The recursive descent; [fuel] bounds the nesting of calls and is
    never exhausted by [JSON_parse], which gives one unit per code unit
    of its input. *)
Fixpoint parse_value (fuel : nat) (s : jstr) : option (jval * jstr) :=
  match fuel with
  | O => None
  | S f =>
    match skip_ws s with
    | [] => None
    | c :: r =>
      if c =? 34 then
        match parse_string_body r with
        | Some (t, r') => Some (JStr t, r')
        | None => None
        end
      else if c =? 91 then
        match skip_ws r with
        | x :: r' =>
            if x =? 93 then Some (JArr [], r')
            else match parse_elements f r with
                 | Some (l, r') => Some (JArr l, r')
                 | None => None
                 end
        | [] => None
        end
      else if c =? 123 then
        match skip_ws r with
        | x :: r' =>
            if x =? 125 then Some (JObj [], r')
            else match parse_members f r [] with
                 | Some (l, r') => Some (JObj l, r')
                 | None => None
                 end
        | [] => None
        end
      else
        match strip_prefix (lit "null") (c :: r) with
        | Some r' => Some (JNull, r')
        | None =>
          match strip_prefix (lit "true") (c :: r) with
          | Some r' => Some (JBool true, r')
          | None =>
            match strip_prefix (lit "false") (c :: r) with
            | Some r' => Some (JBool false, r')
            | None =>
              match parse_number (c :: r) with
              | Some (n, r') => Some (JNum n, r')
              | None => None
              end
            end
          end
        end
    end
  end
with parse_elements (fuel : nat) (s : jstr) : option (list jval * jstr) :=
  match fuel with
  | O => None
  | S f =>
    match parse_value f s with
    | None => None
    | Some (v, r) =>
        match skip_ws r with
        | x :: r' =>
            if x =? 44 then
              match parse_elements f r' with
              | Some (vs, r'') => Some (v :: vs, r'')
              | None => None
              end
            else if x =? 93 then Some ([v], r')
            else None
        | [] => None
        end
    end
  end
with parse_members (fuel : nat) (s : jstr) (acc : list (jstr * jval))
    : option (list (jstr * jval) * jstr) :=
  match fuel with
  | O => None
  | S f =>
    match skip_ws s with
    | x :: r =>
      if x =? 34 then
        match parse_string_body r with
        | None => None
        | Some (k, r1) =>
          match skip_ws r1 with
          | y :: r2 =>
            if y =? 58 then
              match parse_value f r2 with
              | None => None
              | Some (v, r3) =>
                  let acc' := obj_put k v acc in
                  match skip_ws r3 with
                  | z :: r4 =>
                      if z =? 44 then parse_members f r4 acc'
                      else if z =? 125 then Some (acc', r4)
                      else None
                  | [] => None
                  end
              end
            else None
          | [] => None
          end
        end
      else None
    | [] => None
    end
  end.

(** [JSON.parse(text)]; [None] is a thrown SyntaxError. *)
Definition JSON_parse (s : jstr) : option jval :=
  match parse_value (S (length s)) s with
  | Some (v, r) => if bool_decide (skip_ws r = []) then Some v else None
  | None => None
  end.

(** ** btoa and atob (WHATWG HTML 8.3, forgiving-base64 encode/decode)

    Each group of three bytes [a b c] is the 24-bit number
    [a·2^16 + b·2^8 + c], cut into four 6-bit values; the div/mod
    expressions below are those cuts. *)

Definition b64_char (x : Z) : Z :=
  if x <? 26 then 65 + x
  else if x <? 52 then 71 + x
  else if x <? 62 then x - 4
  else if x =? 62 then 43 else 47.

Definition b64_value (c : Z) : option Z :=
  if (65 <=? c) && (c <=? 90) then Some (c - 65)
  else if (97 <=? c) && (c <=? 122) then Some (c - 71)
  else if (48 <=? c) && (c <=? 57) then Some (c + 4)
  else if c =? 43 then Some 62
  else if c =? 47 then Some 63
  else None.

Fixpoint base64_encode (s : list Z) : jstr :=
  match s with
  | a :: b :: c :: r =>
      [b64_char (a / 4); b64_char (a mod 4 * 16 + b / 16);
       b64_char (b mod 16 * 4 + c / 64); b64_char (c mod 64)] ++ base64_encode r
  | [a; b] =>
      [b64_char (a / 4); b64_char (a mod 4 * 16 + b / 16); b64_char (b mod 16 * 4); 61]
  | [a] => [b64_char (a / 4); b64_char (a mod 4 * 16); 61; 61]
  | [] => []
  end.

Definition is_byte (c : Z) : bool := (0 <=? c) && (c <=? 255).

(** [btoa(data)]; [None] is a thrown InvalidCharacterError (a code unit
    above U+00FF). *)
Definition btoa (s : jstr) : option jstr :=
  if forallb is_byte s then Some (base64_encode s) else None.

Fixpoint base64_decode_groups (s : jstr) : option (list Z) :=
  match s with
  | a :: b :: c :: d :: r =>
      match b64_value a, b64_value b, b64_value c, b64_value d with
      | Some va, Some vb, Some vc, Some vd =>
          match base64_decode_groups r with
          | Some rest =>
              Some ([va * 4 + vb / 16; vb mod 16 * 16 + vc / 4; vc mod 4 * 64 + vd] ++ rest)
          | None => None
          end
      | _, _, _, _ => None
      end
  | [a; b; c] =>
      match b64_value a, b64_value b, b64_value c with
      | Some va, Some vb, Some vc => Some [va * 4 + vb / 16; vb mod 16 * 16 + vc / 4]
      | _, _, _ => None
      end
  | [a; b] =>
      match b64_value a, b64_value b with
      | Some va, Some vb => Some [va * 4 + vb / 16]
      | _, _ => None
      end
  | [_] => None
  | [] => Some []
  end.

Definition is_ascii_ws (c : Z) : bool :=
  (c =? 9) || (c =? 10) || (c =? 12) || (c =? 13) || (c =? 32).

(** Step 2 of forgiving-base64 decode: when the length is a multiple of
    four, one or two trailing [=] are removed. *)
Definition strip_padding (s : jstr) : jstr :=
  if (Z.of_nat (length s) mod 4 =? 0) then
    match reverse s with
    | a :: r =>
        if a =? 61 then
          match r with
          | b :: r' => if b =? 61 then reverse r' else reverse r
          | [] => reverse r
          end
        else s
    | [] => s
    end
  else s.

(** [atob(data)]; [None] is a thrown InvalidCharacterError. *)
Definition atob (s : jstr) : option jstr :=
  base64_decode_groups (strip_padding (filter (fun c => negb (is_ascii_ws c)) s)).

(** ** URLs, URLSearchParams and Headers *)

(** A URL record; the query is kept as its URLSearchParams list (the
    application/x-www-form-urlencoded serializer and parser invert each
    other, so re-parsing a URL's href, as [new URL(url)] does, gives the
    same list back). *)
Record url_rec := mkURL {
  url_scheme : jstr;
  url_host : jstr;
  url_path : jstr;
  url_query : list (jstr * jstr);
  url_fragment : jstr
}.

(** URLSearchParams.set: the first pair named [n] gets the value, the
    other pairs named [n] are removed; without one, the pair is
    appended. *)
Fixpoint params_set (n v : jstr) (l : list (jstr * jstr)) : list (jstr * jstr) :=
  match l with
  | [] => [(n, v)]
  | (n', v') :: r =>
      if bool_decide (n' = n)
      then (n, v) :: filter (fun p => negb (bool_decide (p.1 = n))) r
      else (n', v') :: params_set n v r
  end.

(** URLSearchParams.get: the value of the first pair named [n]. *)
Fixpoint params_get (n : jstr) (l : list (jstr * jstr)) : option jstr :=
  match l with
  | [] => None
  | (n', v) :: r => if bool_decide (n' = n) then Some v else params_get n r
  end.

Definition url_set_param (n v : jstr) (u : url_rec) : url_rec :=
  mkURL (url_scheme u) (url_host u) (url_path u) (params_set n v (url_query u)) (url_fragment u).

Definition ascii_lower (c : Z) : Z := if (65 <=? c) && (c <=? 90) then c + 32 else c.

(** ** The heap of objects shared with the caller *)

Inductive obj :=
| OURL (u : url_rec)
| OHeaders (h : list (jstr * jstr)).

Notation loc := nat (only parsing).

Inductive http_method := PUT | GET | DELETE.

Definition method_string (m : http_method) : jstr :=
  match m with PUT => lit "PUT" | GET => lit "GET" | DELETE => lit "DELETE" end.

(** neverthrow's Result. *)
Inductive result (A E : Type) := Ok (a : A) | Err (e : E).
Arguments Ok {A E} a.
Arguments Err {A E} e.

(** MedoroDataplaneClientError; [edetails] is the [details] field that the
    spread of a server error carries along. *)
Record client_error := mkError {
  etype : jstr;
  emessage : jstr;
  ecode : option jstr;
  edetails : option jval;
  econtext : option jval
}.

(** What http-msg-sig's createSignatureForRequest is called with. *)
Inductive signature_input :=
| SIComponent (name : jstr)
| SIQueryParam (name : jstr).

Record sign_request := mkSignRequest {
  sr_signatureInputs : list signature_input;
  sr_signatureLabel : jstr;
  sr_keyid : jstr;
  sr_alg : jstr;
  sr_created : Z;
  sr_expires : jsnum;
  sr_url : url_rec;
  sr_headers : list (jstr * jstr);
  sr_method : http_method
}.

Record sign_output := mkSignOutput { signatureInput : jstr; signature : jstr }.

Record response := mkResponse {
  status : Z;
  statusText : jstr;
  content_type : option jstr;
  body : jstr
}.

(** [Response.ok]: the status is in the range 200 to 299. *)
Definition response_ok (r : response) : bool := (200 <=? status r) && (status r <=? 299).

Record fetch_request := mkFetchRequest {
  fr_url : url_rec;
  fr_method : http_method;
  fr_headers : list (jstr * jstr);
  fr_body : option jstr
}.

Inductive fetch_result :=
| FetchRejected (message : jstr)
| FetchResolved (r : response).

(** The calls to the outside world, most recent first. *)
Inductive event :=
| ESign (r : sign_request)
| EFetch (r : fetch_request).

Record state := mkState {
  st_heap : gmap nat obj;
  st_next : nat;
  st_clock : Z;
  st_trace : list event
}.

(** *** The effect monad: state and thrown exceptions *)

Inductive exn := TypeError | InvalidCharacterError.

Inductive outcome (A : Type) := Ret (a : A) | Throw (x : exn).
Arguments Ret {A} a.
Arguments Throw {A} x.

Definition M (A : Type) : Type := state -> outcome A * state.

Global Instance M_ret : MRet M := fun A a st => (Ret a, st).
Global Instance M_bind : MBind M := fun A B k m st =>
  match m st with
  | (Ret a, st') => k a st'
  | (Throw x, st') => (Throw x, st')
  end.

Definition throw {A} (x : exn) : M A := fun st => (Throw x, st).

Definition alloc (o : obj) : M loc := fun st =>
  (Ret (st_next st),
   mkState (<[st_next st := o]> (st_heap st)) (S (st_next st)) (st_clock st) (st_trace st)).

Definition update_obj (l : loc) (f : obj -> obj) (st : state) : state :=
  match st_heap st !! l with
  | Some o => mkState (<[l := f o]> (st_heap st)) (st_next st) (st_clock st) (st_trace st)
  | None => st
  end.

Definition modify_obj (l : loc) (f : obj -> obj) : M unit := fun st =>
  (Ret tt, update_obj l f st).

Definition gets {A} (f : state -> A) : M A := fun st => (Ret (f st), st).

Definition log (e : event) : M unit := fun st =>
  (Ret tt, mkState (st_heap st) (st_next st) (st_clock st) (e :: st_trace st)).

(** Reading an object through a reference; JavaScript references never
    dangle, so the defaults are not reached from the states the client
    builds. *)
Definition url_at (st : state) (l : loc) : url_rec :=
  match st_heap st !! l with
  | Some (OURL u) => u
  | _ => mkURL [] [] [] [] []
  end.

Definition headers_at (st : state) (l : loc) : list (jstr * jstr) :=
  match st_heap st !! l with
  | Some (OHeaders h) => h
  | _ => []
  end.

(** [url.searchParams.set(n, v)] *)
Definition searchParams_set (l : loc) (n v : jstr) : M unit :=
  modify_obj l (fun o => match o with OURL u => OURL (url_set_param n v u) | _ => o end).

(** [headers.set(n, v)] (Fetch 5.2): the name is lowercased. *)
Definition Headers_set (l : loc) (n v : jstr) : M unit :=
  modify_obj l (fun o => match o with
                         | OHeaders h => OHeaders (params_set (map ascii_lower n) v h)
                         | _ => o
                         end).

(** ** Commands *)

Record MedoroDataplaneCommand := mkCommand {
  method : http_method;
  key : jstr;
  headers : loc
}.

Inductive command :=
| CPut (c : MedoroDataplaneCommand) (policy : jval) (content : option jstr)
| CGet (c : MedoroDataplaneCommand)
| CDelete (c : MedoroDataplaneCommand).

Definition base (cmd : command) : MedoroDataplaneCommand :=
  match cmd with CPut c _ _ | CGet c | CDelete c => c end.

(** [constructor({ method, headers = new Headers(), key })] *)
Definition new_MedoroDataplaneCommand (m : http_method) (hs : option loc) (k : jstr)
    : M MedoroDataplaneCommand :=
  h ← match hs with Some h => mret h | None => alloc (OHeaders []) end;
  mret (mkCommand m k h).

Definition new_PutObjectCommand (k : jstr) (policy : jval) (content : option jstr) : M command :=
  c ← new_MedoroDataplaneCommand PUT None k;
  mret (CPut c policy content).

Definition new_GetObjectCommand (k : jstr) : M command :=
  c ← new_MedoroDataplaneCommand GET None k;
  mret (CGet c).

Definition new_DeleteObjectCommand (k : jstr) : M command :=
  c ← new_MedoroDataplaneCommand DELETE None k;
  mret (CDelete c).

(** ** Response classification (MedoroDataplaneClient.parseJsonResponse) *)

(** [String.prototype.includes] *)
Fixpoint str_includes (needle hay : jstr) : bool :=
  bool_decide (needle `prefix_of` hay) ||
  match hay with [] => false | _ :: r => str_includes needle r end.

(** The zod parse of ApiResponseSchema, a discriminated union on
    [success]; unknown keys are stripped. *)
Inductive envelope :=
| EnvSuccess (data : jval)
| EnvFailure (code type message : jstr) (details : option jval).

Definition as_string (v : option jval) : option jstr :=
  match v with Some (JStr s) => Some s | _ => None end.

Definition ApiResponseSchema_parse (v : jval) : option envelope :=
  match v with
  | JObj l =>
      match obj_get (lit "success") l with
      | Some (JBool true) =>
          Some (EnvSuccess (match obj_get (lit "data") l with Some d => d | None => JUndef end))
      | Some (JBool false) =>
          match obj_get (lit "error") l with
          | Some (JObj el) =>
              match as_string (obj_get (lit "code") el), as_string (obj_get (lit "type") el),
                    as_string (obj_get (lit "message") el) with
              | Some c, Some t, Some m => Some (EnvFailure c t m (obj_get (lit "details") el))
              | _, _, _ => None
              end
          | _ => None
          end
      | _ => None
      end
  | _ => None
  end.

(** [response.headers.get('content-type')?.includes('application/json')] *)
Definition json_content_type (r : response) : bool :=
  match content_type r with Some c => str_includes (lit "application/json") c | None => false end.

Definition num_Z (z : Z) : jval := JNum (num_of_Z z).

(** Messages of exceptions raised by the engine or by zod are
    engine-specific; they are abbreviated by these fixed texts. *)
Definition json_syntax_error_message : jstr := lit "SyntaxError".
Definition zod_error_message : jstr := lit "ZodError".

(** The success value [{ success: true, data }] is represented by [data]. *)
Definition parseJsonResponse (r : response) : result jval client_error :=
  let ct := content_type r in
  if negb (json_content_type r)
  then Err (mkError (lit "json_parse_error") (lit "Response is not JSON") None None
              (Some (JObj [(lit "status", num_Z (status r));
                           (lit "statusText", JStr (statusText r));
                           (lit "contentType", match ct with Some c => JStr c | None => JNull end);
                           (lit "content", JStr (body r))])))
  else
    match JSON_parse (body r) with
    | None =>
        Err (mkError (lit "json_parse_error")
               (lit "Failed to parse JSON response: " ++ json_syntax_error_message) None None
               (Some (JObj [(lit "status", num_Z (status r));
                            (lit "statusText", JStr (statusText r))])))
    | Some rawData =>
        match ApiResponseSchema_parse rawData with
        | None =>
            (* the zod issue list of the context is not modelled *)
            Err (mkError (lit "validation_error")
                   (lit "API response validation failed: " ++ zod_error_message) None None
                   (Some (JObj [(lit "rawData", rawData)])))
        | Some (EnvSuccess d) => Ok d
        | Some (EnvFailure c t m det) =>
            let d := match det with Some v => v | None => JUndef end in
            Err (mkError t m (Some c) det
                   (Some (if truthy d then d else JStr (statusText r))))
        end
    end.

(** ** The client (MedoroDataplaneClient) *)

Record signed_url := mkSignedUrl { signedUrl : loc; su_method : http_method }.

Inductive send_value :=
| SendRaw (r : response)
| SendData (d : jval).

Definition expiry_error : client_error :=
  mkError (lit "validation") (lit "expiresInSeconds must be between 10 and 604800")
    None None None.

Definition base_signature_inputs : list signature_input :=
  [SIComponent (lit "@method"); SIComponent (lit "@scheme");
   SIComponent (lit "@authority"); SIComponent (lit "@path")].

Definition policy_param : jstr := lit "x-medoro-policy".

(** [60] *)
Definition default_expiry : jsnum := NFin false 6 1.

(** [('policy' in command)]: only PutObjectCommand has the getter. *)
Definition has_policy (cmd : command) : bool :=
  match cmd with CPut _ _ _ => true | _ => false end.

Section Client.

(** The client's private fields. *)
Variable origin : jstr.
Variable keyId : jstr.
(** [new URL(key, origin)]; [None] is a thrown TypeError. *)
Variable new_URL : jstr -> jstr -> option url_rec.
(** http-msg-sig's createSignatureForRequest, with the client's [sign]
    callback (Ed25519 over the private key) folded in. *)
Variable createSignatureForRequest : sign_request -> result sign_output client_error.
(** The platform [fetch]; a rejection carries its message. *)
Variable fetch : fetch_request -> fetch_result.

Definition sign_call (r : sign_request) : M (result sign_output client_error) :=
  log (ESign r);; mret (createSignatureForRequest r).

Definition fetch_call (r : fetch_request) : M fetch_result :=
  log (EFetch r);; mret (fetch r).

Definition btoa_m (s : jstr) : M jstr :=
  match btoa s with Some b => mret b | None => throw InvalidCharacterError end.

Definition createSignedUrl (command : command) (expiresInSeconds : option jsnum)
    : M (result signed_url client_error) :=
  let e := match expiresInSeconds with Some x => x | None => default_expiry end in
  if js_lt e 10 || js_gt e 604800 then mret (Err expiry_error)
  else
    u0 ← match new_URL (key (base command)) origin with
         | Some u => mret u
         | None => throw TypeError
         end;
    url ← alloc (OURL u0);
    let signatureInputs :=
      base_signature_inputs ++ (if has_policy command then [SIQueryParam policy_param] else []) in
    match command with
    | CPut _ policy _ =>
        b ← btoa_m (JSON_stringify_string policy);
        searchParams_set url policy_param b
    | _ => mret tt
    end;;
    now_ms ← gets st_clock;
    u ← gets (fun st => url_at st url);
    h ← gets (fun st => headers_at st (headers (base command)));
    resultOfSigning ← sign_call
      (mkSignRequest signatureInputs (lit "medoro") keyId (lit "ed25519")
         (now_ms / 1000) (js_add_Z (now_ms / 1000) e) u h (method (base command)));
    match resultOfSigning with
    | Err err => mret (Err err)
    | Ok out =>
        u' ← gets (fun st => url_at st url);
        su ← alloc (OURL u');
        searchParams_set su (lit "x-medoro-signature-input") (signatureInput out);;
        searchParams_set su (lit "x-medoro-signature") (signature out);;
        mret (Ok (mkSignedUrl su (method (base command))))
    end.

Definition network_error (m : http_method) (msg : jstr) : client_error :=
  mkError (lit "network_error") (lit "Network error during " ++ method_string m ++ lit ": " ++ msg)
    None None None.

Definition api_error (r : response) : client_error :=
  mkError (lit "api_error") (lit "API returned a non-ok response")
    (Some (Number_toString (num_of_Z (status r)))) None (Some (JStr (statusText r))).

(** The request [send] hands to [fetch] once the URL is signed. *)
Definition is_get (command : command) : bool :=
  match command with CGet _ => true | _ => false end.

Definition send_request (command : command) (su : signed_url) (st : state) : fetch_request :=
  mkFetchRequest (url_at st (signedUrl su)) (method (base command))
    (headers_at st (headers (base command)))
    (match command with CPut _ _ c => c | _ => None end).

Definition send (command : command) : M (result send_value client_error) :=
  resultOfSignedUrl ← createSignedUrl command None;
  match resultOfSignedUrl with
  | Err e => mret (Err e)
  | Ok su =>
      req ← gets (send_request command su);
      resultOfResponse ← fetch_call req;
      match resultOfResponse with
      | FetchRejected msg => mret (Err (network_error (method (base command)) msg))
      | FetchResolved resp =>
          match command with
          | CGet _ =>
              if negb (response_ok resp) then
                match parseJsonResponse resp with
                | Err e => mret (Err e)
                | Ok _ => mret (Err (api_error resp))
                end
              else mret (Ok (SendRaw resp))
          | _ =>
              match parseJsonResponse resp with
              | Err e => mret (Err e)
              | Ok d => mret (Ok (SendData d))
              end
          end
      end
  end.

End Client.

(** [x-medoro-policy] of a URL, read back: base64, then JSON. *)
Definition decoded_policy (u : url_rec) : option jval :=
  match params_get policy_param (url_query u) with
  | Some b => match atob b with Some t => JSON_parse t | None => None end
  | None => None
  end.

(** ** Concrete collaborators, for evaluating the client *)

Definition demo_origin : jstr := lit "https://bucket.example.com".

(** [new URL(key, origin)] for a key that is a relative path. *)
Definition demo_new_URL (k o : jstr) : option url_rec :=
  Some (mkURL (lit "https") (lit "bucket.example.com") ([47] ++ k) [] []).

Definition demo_sign (r : sign_request) : result sign_output client_error :=
  Ok (mkSignOutput (lit "medoro=(sig-params)") (lit "c2lnbmF0dXJl")).

Definition fetch_returning (resp : response) (r : fetch_request) : fetch_result :=
  FetchResolved resp.

Definition st0 : state := mkState ∅ 0 1700000000000 [].

Definition demo_policy : jval :=
  JObj [(lit "apiPutV1",
         JObj [(lit "conditions",
                JObj [(lit "content_length", JObj [(lit "lte", JNum (NFin false 1 6))]);
                      (lit "content_type", JStr (lit "image/png"))]);
               (lit "accessControl", JStr (lit "public"))])].

Definition demo_put : command :=
  CPut (mkCommand PUT (lit "photos/cat.png") 0%nat) demo_policy (Some (lit "data")).

Definition st_with_headers : state :=
  mkState {[ 0%nat := OHeaders [] ]} 1 1700000000000 [].

(** ** Demonstration inputs *)

Definition demo_get : command := CGet (mkCommand GET (lit "photos/cat.png") 0%nat).

Definition resp_html_404 : response :=
  mkResponse 404 (lit "Not Found") (Some (lit "text/html")) (lit "<h1>Not Found</h1>").

Definition resp_500_success : response :=
  mkResponse 500 (lit "Internal Server Error") (Some (lit "application/json"))
    (litq "{'success':true,'data':1}").

Definition resp_details_zero : response :=
  mkResponse 429 (lit "Too Many Requests") (Some (lit "application/json"))
    (litq "{'success':false,'error':{'code':'quota','type':'quota_exceeded','message':'Quota exceeded','details':0}}").

Definition demo_put_euro : command :=
  CPut (mkCommand PUT (lit "invoice.pdf") 0%nat)
    (JObj [(lit "apiPutV1",
            JObj [(lit "conditions", JObj [(lit "currency", JStr [8364])]);
                  (lit "accessControl", JStr (lit "private"))])])
    None.

(** The state after [createSignedUrl] on the demonstration collaborators. *)
Definition demo_st_after (cmd : command) : state :=
  snd (createSignedUrl demo_origin (lit "key-1") demo_new_URL demo_sign cmd None st_with_headers).

(** A policy a JavaScript caller can build but JSON cannot carry: an
    infinite bound and a member left [undefined]. *)
Definition policy_infinite_undefined : jval :=
  JObj [(lit "apiPutV1",
         JObj [(lit "conditions",
                JObj [(lit "content_length", JObj [(lit "lte", JNum (NInf false))])]);
               (lit "accessControl", JUndef)])].

Definition demo_put_infinite : command :=
  CPut (mkCommand PUT (lit "photos/cat.png") 0%nat) policy_infinite_undefined None.

(** A signing primitive that fails, and a [fetch] that rejects. *)
Definition demo_sign_error : client_error :=
  mkError (lit "signature_error") (lit "Failed to sign request: key unusable") None None None.

Definition demo_sign_fail (r : sign_request) : result sign_output client_error :=
  Err demo_sign_error.

Definition fetch_rejecting (msg : jstr) (r : fetch_request) : fetch_result :=
  FetchRejected msg.

(** The most recent signing call of a state's trace. *)
Definition last_sign_request (st : state) : sign_request :=
  match st_trace st with
  | ESign r :: _ => r
  | _ => mkSignRequest [] [] [] [] 0 NNaN (mkURL [] [] [] [] []) [] GET
  end.

(** Responses whose bodies a server produced with JSON.stringify. *)
Definition resp_success_data : response :=
  mkResponse 200 (lit "OK") (Some (lit "application/json; charset=utf-8"))
    (JSON_stringify_string
       (JObj [(lit "success", JBool true);
              (lit "data", JArr [JStr (lit "photos/cat.png"); JNum (NFin false 2 0)])])).

Definition resp_failure_details : response :=
  mkResponse 403 (lit "Forbidden") (Some (lit "application/json"))
    (JSON_stringify_string
       (JObj [(lit "success", JBool false);
              (lit "error", JObj [(lit "code", JStr (lit "E403")); (lit "type", JStr (lit "access_denied"));
                                  (lit "message", JStr (lit "Key not allowed"));
                                  (lit "details", JObj [(lit "key", JStr (lit "photos/cat.png"))])])])).

(** ** Serializations of JSON values that parse back *)

Definition digit_ok (d : Z) : Prop := 0 <= d < 10.

Definition nondigit_head (s : jstr) : Prop :=
  match s with [] => True | c :: _ => is_digit c = false end.

(** What may follow a JSON value in a serialization: nothing, a comma,
    or the end of an array or an object. *)
Definition value_stop (s : jstr) : Prop :=
  match s with [] => True | c :: _ => c = 44 \/ c = 93 \/ c = 125 end.

Definition num_faithful (n : jsnum) : bool :=
  match n with
  | NFin _ m _ => (0 <? m) && negb (m mod 10 =? 0)
  | NZero neg => negb neg
  | _ => false
  end.

Fixpoint json_faithful (v : jval) : bool :=
  match v with
  | JUndef => false
  | JNull | JBool _ => true
  | JNum n => num_faithful n
  | JStr s => forallb unit_ok s
  | JArr l => forallb json_faithful l
  | JObj l =>
      bool_decide (NoDup l.*1) &&
      forallb (fun '(k, x) => forallb unit_ok k && json_faithful x) l
  end.

Fixpoint ser_elems (l : list jval) : list jstr :=
  match l with
  | [] => []
  | x :: r =>
      match SerializeJSONProperty x with
      | Some s => s
      | None => lit "null"
      end :: ser_elems r
  end.

Fixpoint ser_members (l : list (jstr * jval)) : list jstr :=
  match l with
  | [] => []
  | (k, x) :: r =>
      match SerializeJSONProperty x with
      | Some s => (QuoteJSONString k ++ [58] ++ s) :: ser_members r
      | None => ser_members r
      end
  end.

(** A value [v] serializes to [s], [s] starts with a character that is
    neither white space nor a closing bracket, and [s] parses back to
    [v] in front of anything that may follow a value. *)
Definition ser_parses (v : jval) (s : jstr) : Prop :=
  SerializeJSONProperty v = Some s /\
  (exists c t, s = c :: t /\ is_ws c = false /\ c <> 93) /\
  forall fuel rest, (length s <= fuel)%nat -> value_stop rest ->
    parse_value fuel (s ++ rest) = Some (v, rest).

(** * Properties *)

(** ** Evaluation of the built-ins and the client *)

Example stringify_ex1 :
  JSON_stringify (JObj [(lit "a", JNum (NFin false 15 (-1))); (lit "b", JUndef);
                        (lit "c", JArr [JUndef; JNum (NInf false); JStr [10]])])
  = Some (litq "{'a':1.5,'c':[null,null,'\n']}").
Proof. vm_compute. reflexivity. Qed.

Example parse_ex1 :
  JSON_parse (litq " {'a' : [1.5e2, -0.25, null, '\u00e9x'], 'a': true, 'b':{}} ")
  = Some (JObj [(lit "a", JBool true); (lit "b", JObj [])]).
Proof. vm_compute. reflexivity. Qed.

Example parse_ex2 :
  JSON_parse (litq "[1.5e2, -0.25, 100, '\u00e9x']")
  = Some (JArr [JNum (NFin false 15 1); JNum (NFin true 25 (-2));
                JNum (NFin false 1 2); JStr [233; 120]]).
Proof. vm_compute. reflexivity. Qed.

Example parse_ex3 : JSON_parse (lit "[1,]") = None.
Proof. vm_compute. reflexivity. Qed.

Example btoa_ex : btoa (lit "hello") = Some (lit "aGVsbG8=").
Proof. vm_compute. reflexivity. Qed.

Example atob_ex : atob (lit "aGVs bG8=") = Some (lit "hello").
Proof. vm_compute. reflexivity. Qed.

Example btoa_euro : btoa [8364] = None.
Proof. vm_compute. reflexivity. Qed.

Example createSignedUrl_demo :
  match createSignedUrl demo_origin (lit "key-1") demo_new_URL demo_sign demo_put None
          st_with_headers with
  | (Ret (Ok su), st) => decoded_policy (url_at st (signedUrl su))
  | _ => None
  end = Some demo_policy.
Proof. vm_compute. reflexivity. Qed.

Ltac unfold_M := unfold mbind, M_bind, mret, M_ret, gets, log, alloc, modify_obj,
  searchParams_set, sign_call, fetch_call, btoa_m, throw in *.

Lemma lookup_insert_lt (h : gmap nat obj) (n l : nat) (o : obj) :
  (l < n)%nat -> <[n := o]> h !! l = h !! l.
Proof. intros Hl. rewrite lookup_insert_ne; [done | lia]. Qed.

Arguments update_obj : simpl never.
Arguments lit : simpl never.

(** Updating the object at [l] leaves the objects below [n <= l] alone. *)
Lemma update_obj_frame (l n : nat) (f : obj -> obj) (st : state) :
  (n <= l)%nat ->
  st_next (update_obj l f st) = st_next st /\
  st_clock (update_obj l f st) = st_clock st /\
  st_trace (update_obj l f st) = st_trace st /\
  forall l', (l' < n)%nat -> st_heap (update_obj l f st) !! l' = st_heap st !! l'.
Proof.
  intros Hn. unfold update_obj.
  destruct (st_heap st !! l); simpl; repeat split; auto.
  intros l' Hl'. rewrite lookup_insert_ne; [done | lia].
Qed.

Lemma update_obj_next (l : nat) (f : obj -> obj) (st : state) :
  st_next (update_obj l f st) = st_next st.
Proof. unfold update_obj. by destruct (st_heap st !! l). Qed.

Lemma update_obj_clock (l : nat) (f : obj -> obj) (st : state) :
  st_clock (update_obj l f st) = st_clock st.
Proof. unfold update_obj. by destruct (st_heap st !! l). Qed.

Lemma update_obj_trace (l : nat) (f : obj -> obj) (st : state) :
  st_trace (update_obj l f st) = st_trace st.
Proof. unfold update_obj. by destruct (st_heap st !! l). Qed.

Lemma update_obj_heap_ne (l l' : nat) (f : obj -> obj) (st : state) :
  l' <> l -> st_heap (update_obj l f st) !! l' = st_heap st !! l'.
Proof.
  intros Hne. unfold update_obj.
  destruct (st_heap st !! l); simpl; [rewrite lookup_insert_ne; done | done].
Qed.

Ltac state_simpl :=
  repeat (rewrite ?update_obj_next, ?update_obj_clock, ?update_obj_trace;
          cbn [st_heap st_next st_clock st_trace]).

Ltac frame_solve :=
  let l := fresh "l" in let Hl := fresh "Hl" in
  intros l Hl;
  repeat (first [rewrite update_obj_heap_ne by (state_simpl; lia)
                | rewrite lookup_insert_ne by (state_simpl; lia)]; state_simpl);
  reflexivity.

(** Claim C9: [createSignedUrl] mutates no object that existed before the
    call (in particular not the command's Headers object; the command
    record and its policy are immutable values), and the signature
    parameters are set on a freshly allocated URL, not on any object the
    caller can already see. *)
Theorem createSignedUrl_frame (origin keyId : jstr) (new_URL : jstr -> jstr -> option url_rec)
    (sign : sign_request -> result sign_output client_error)
    (command : command) (e : option jsnum) (st : state) :
  let '(o, st') := createSignedUrl origin keyId new_URL sign command e st in
  (forall l, (l < st_next st)%nat -> st_heap st' !! l = st_heap st !! l) /\
  (forall su, o = Ret (Ok su) -> (st_next st <= signedUrl su)%nat).
Proof.
  unfold createSignedUrl.
  destruct (js_lt _ 10 || js_gt _ 604800).
  { simpl. split; [done | intros su H; discriminate]. }
  destruct (new_URL _ origin) as [u0|]; unfold_M; simpl.
  2:{ split; [done | intros su H; discriminate]. }
  destruct command as [c policy content|c|c]; simpl.
  - destruct (btoa _) as [b|]; simpl.
    2:{ split; [intros l Hl; apply lookup_insert_lt; lia | intros su H; discriminate]. }
    destruct (sign _) as [out|err]; simpl.
    + split; [frame_solve|]. intros su H; injection H as <-; simpl. state_simpl. lia.
    + split; [frame_solve|]. intros su H; discriminate.
  - destruct (sign _) as [out|err]; simpl.
    + split; [frame_solve|]. intros su H; injection H as <-; simpl. state_simpl. lia.
    + split; [frame_solve|]. intros su H; discriminate.
  - destruct (sign _) as [out|err]; simpl.
    + split; [frame_solve|]. intros su H; injection H as <-; simpl. state_simpl. lia.
    + split; [frame_solve|]. intros su H; discriminate.
Qed.

(** Claim C10, as amended: the variant constructors fix the method (PUT,
    GET, DELETE) whatever the caller passes, and give the command a
    freshly allocated, empty Headers object; the method, key and headers
    reference of a command never change, since a command is an immutable
    record. *)
Theorem command_constructors_fix_method (k : jstr) (policy : jval) (content : option jstr)
    (st : state) :
  new_PutObjectCommand k policy content st
    = (Ret (CPut (mkCommand PUT k (st_next st)) policy content),
       mkState (<[st_next st := OHeaders []]> (st_heap st)) (S (st_next st))
         (st_clock st) (st_trace st)) /\
  new_GetObjectCommand k st
    = (Ret (CGet (mkCommand GET k (st_next st))),
       mkState (<[st_next st := OHeaders []]> (st_heap st)) (S (st_next st))
         (st_clock st) (st_trace st)) /\
  new_DeleteObjectCommand k st
    = (Ret (CDelete (mkCommand DELETE k (st_next st))),
       mkState (<[st_next st := OHeaders []]> (st_heap st)) (S (st_next st))
         (st_clock st) (st_trace st)).
Proof. repeat split. Qed.

(** Claim C10 fails as stated: the Headers object of a command is mutable
    through the [headers] getter, so a GetObjectCommand built without
    headers carries a non-empty header map after [cmd.headers.set]. *)
Lemma command_headers_mutable :
  exists c st1 st2,
    new_GetObjectCommand (lit "a.txt") st0 = (Ret c, st1) /\
    Headers_set (headers (base c)) (lit "X-Trace") (lit "1") st1 = (Ret tt, st2) /\
    headers_at st1 (headers (base c)) = [] /\
    headers_at st2 (headers (base c)) = [(lit "x-trace", lit "1")].
Proof. do 3 eexists. split; [reflexivity|]. split; [reflexivity|]. vm_compute. split; reflexivity. Qed.

(** Claim C2 (its failing input): an expiry of NaN passes the range guard,
    since both comparisons with NaN are false, and the signing primitive
    is called, with [expires] NaN. *)
Theorem createSignedUrl_NaN_expiry_signs :
  match createSignedUrl demo_origin (lit "key-1") demo_new_URL demo_sign
          (CGet (mkCommand GET (lit "a.txt") 0%nat)) (Some NNaN) st_with_headers with
  | (Ret (Ok _), st') =>
      map (fun ev => match ev with ESign r => Some (sr_expires r) | EFetch _ => None end)
        (st_trace st')
  | _ => []
  end = [Some NNaN].
Proof. vm_compute. reflexivity. Qed.

(** The rest of the guard behaves as described: every expiry for which a
    comparison puts it below 10 or above 604800 is refused without any
    effect. *)
Lemma createSignedUrl_rejects_out_of_range (origin keyId : jstr)
    (new_URL : jstr -> jstr -> option url_rec)
    (sign : sign_request -> result sign_output client_error)
    (command : command) (x : jsnum) (st : state) :
  js_lt x 10 || js_gt x 604800 = true ->
  createSignedUrl origin keyId new_URL sign command (Some x) st = (Ret (Err expiry_error), st).
Proof. intros H. unfold createSignedUrl. rewrite H. reflexivity. Qed.

(** Once [createSignedUrl] has succeeded and [fetch] has resolved, [send]
    returns according to the command kind and the response. *)
Lemma send_after_response (origin keyId : jstr) (new_URL : jstr -> jstr -> option url_rec)
    (sign : sign_request -> result sign_output client_error)
    (fetch : fetch_request -> fetch_result)
    (command : command) (st st1 : state) (su : signed_url) (resp : response) :
  createSignedUrl origin keyId new_URL sign command None st = (Ret (Ok su), st1) ->
  fetch (send_request command su st1) = FetchResolved resp ->
  fst (send origin keyId new_URL sign fetch command st)
  = Ret (if is_get command then
           if negb (response_ok resp) then
             match parseJsonResponse resp with
             | Err e => Err e
             | Ok _ => Err (api_error resp)
             end
           else Ok (SendRaw resp)
         else
           match parseJsonResponse resp with
           | Err e => Err e
           | Ok d => Ok (SendData d)
           end).
Proof.
  intros Hc Hf. unfold send. unfold mbind at 1, M_bind at 1. rewrite Hc.
  unfold_M. simpl. rewrite Hf.
  destruct command; simpl;
    [destruct (parseJsonResponse resp); reflexivity | |
     destruct (parseJsonResponse resp); reflexivity].
  destruct (response_ok resp); simpl; [reflexivity|].
  destruct (parseJsonResponse resp); reflexivity.
Qed.

(** For a JSON response whose body passes the envelope schema, the
    classifier's result. *)
Lemma parseJsonResponse_envelope (r : response) (raw : jval) :
  json_content_type r = true ->
  JSON_parse (body r) = Some raw ->
  (forall d, ApiResponseSchema_parse raw = Some (EnvSuccess d) -> parseJsonResponse r = Ok d) /\
  (forall c t m det, ApiResponseSchema_parse raw = Some (EnvFailure c t m det) ->
     parseJsonResponse r
     = Err (mkError t m (Some c) det
              (Some (let d := match det with Some v => v | None => JUndef end in
                     if truthy d then d else JStr (statusText r))))).
Proof.
  intros Hct Hp. unfold parseJsonResponse. rewrite Hct, Hp. simpl.
  split; [intros d Hs | intros c t m det Hs]; rewrite Hs; reflexivity.
Qed.

(** Claim C7: for a store or remove command, once a response has arrived
    [send] always runs it through the classifier, whatever its status: an
    error envelope gives that envelope's error (with the classifier's
    context) and a success envelope gives its [data]. *)
Theorem send_store_remove_classified (origin keyId : jstr)
    (new_URL : jstr -> jstr -> option url_rec)
    (sign : sign_request -> result sign_output client_error)
    (fetch : fetch_request -> fetch_result)
    (command : command) (st st1 : state) (su : signed_url) (resp : response) :
  is_get command = false ->
  createSignedUrl origin keyId new_URL sign command None st = (Ret (Ok su), st1) ->
  fetch (send_request command su st1) = FetchResolved resp ->
  fst (send origin keyId new_URL sign fetch command st)
    = Ret (match parseJsonResponse resp with
           | Err e => Err e
           | Ok d => Ok (SendData d)
           end) /\
  (forall raw, json_content_type resp = true -> JSON_parse (body resp) = Some raw ->
     (forall d, ApiResponseSchema_parse raw = Some (EnvSuccess d) ->
        fst (send origin keyId new_URL sign fetch command st) = Ret (Ok (SendData d))) /\
     (forall c t m det, ApiResponseSchema_parse raw = Some (EnvFailure c t m det) ->
        fst (send origin keyId new_URL sign fetch command st)
        = Ret (Err (mkError t m (Some c) det
                 (Some (let d := match det with Some v => v | None => JUndef end in
                        if truthy d then d else JStr (statusText resp))))))).
Proof.
  intros Hg Hc Hf.
  pose proof (send_after_response origin keyId new_URL sign fetch command st st1 su resp Hc Hf)
    as Hs.
  rewrite Hg in Hs. split; [exact Hs|].
  intros raw Hct Hp.
  destruct (parseJsonResponse_envelope resp raw Hct Hp) as [Hok Herr].
  split.
  - intros d Hd. rewrite Hs, (Hok d Hd). reflexivity.
  - intros c t m det Hd. rewrite Hs, (Herr c t m det Hd). reflexivity.
Qed.

(** Claim C8, as amended: for a fetch command, a response with a status
    in 200..299 is returned as it is, never classified; otherwise the body
    is classified and the classifier's error (an envelope error or a
    parse or validation failure) is returned, except that a body that is
    a valid success envelope gives the client's own [api_error]. *)
Theorem send_fetch_dispatch (origin keyId : jstr)
    (new_URL : jstr -> jstr -> option url_rec)
    (sign : sign_request -> result sign_output client_error)
    (fetch : fetch_request -> fetch_result)
    (c : MedoroDataplaneCommand) (st st1 : state) (su : signed_url) (resp : response) :
  createSignedUrl origin keyId new_URL sign (CGet c) None st = (Ret (Ok su), st1) ->
  fetch (send_request (CGet c) su st1) = FetchResolved resp ->
  fst (send origin keyId new_URL sign fetch (CGet c) st)
    = Ret (if response_ok resp then Ok (SendRaw resp)
           else match parseJsonResponse resp with
                | Err e => Err e
                | Ok _ => Err (api_error resp)
                end).
Proof.
  intros Hc Hf.
  rewrite (send_after_response origin keyId new_URL sign fetch (CGet c) st st1 su resp Hc Hf).
  simpl. destruct (response_ok resp); reflexivity.
Qed.

(** Claim C4, as amended: after a response, an error that [send] builds
    itself with kind [api_error] (code: the status as a decimal string,
    context: the status text) arises exactly for a fetch command with a
    status outside 200..299 whose body the classifier accepts as a
    success envelope; every other error is the classifier's, unchanged. *)
Theorem send_api_error_origin (origin keyId : jstr)
    (new_URL : jstr -> jstr -> option url_rec)
    (sign : sign_request -> result sign_output client_error)
    (fetch : fetch_request -> fetch_result)
    (command : command) (st st1 : state) (su : signed_url) (resp : response) :
  createSignedUrl origin keyId new_URL sign command None st = (Ret (Ok su), st1) ->
  fetch (send_request command su st1) = FetchResolved resp ->
  ecode (api_error resp) = Some (Number_toString (num_of_Z (status resp))) /\
  etype (api_error resp) = lit "api_error" /\
  (is_get command = true -> response_ok resp = false ->
   forall d, parseJsonResponse resp = Ok d ->
   fst (send origin keyId new_URL sign fetch command st) = Ret (Err (api_error resp))) /\
  (forall e, fst (send origin keyId new_URL sign fetch command st) = Ret (Err e) ->
   (is_get command = true /\ response_ok resp = false /\
    (exists d, parseJsonResponse resp = Ok d) /\ e = api_error resp)
   \/ parseJsonResponse resp = Err e).
Proof.
  intros Hc Hf.
  pose proof (send_after_response origin keyId new_URL sign fetch command st st1 su resp Hc Hf)
    as Hs.
  split; [reflexivity|]. split; [reflexivity|]. split.
  - intros Hg Hok d Hd. rewrite Hs, Hg, Hok, Hd. reflexivity.
  - intros e He. rewrite Hs in He.
    destruct (is_get command) eqn:Hg.
    + destruct (response_ok resp) eqn:Hok; simpl in He; [discriminate|].
      destruct (parseJsonResponse resp) as [d|e'] eqn:Hp; injection He as <-.
      * left. repeat split; eauto.
      * right. reflexivity.
    + destruct (parseJsonResponse resp) as [d|e'] eqn:Hp; [discriminate|].
      injection He as <-. right. reflexivity.
Qed.

(** Claim C4 fails as stated: a fetch answered with 404 and an HTML body
    (a non-success status without a structured error body) yields
    [json_parse_error], not [api_error]. *)
Lemma send_404_html_not_api_error :
  response_ok resp_html_404 = false /\
  match fst (send demo_origin (lit "key-1") demo_new_URL demo_sign
               (fetch_returning resp_html_404) demo_get st_with_headers) with
  | Ret (Err e) => etype e
  | _ => []
  end = lit "json_parse_error".
Proof. split; vm_compute; reflexivity. Qed.

(** Claim C8 fails as stated: a fetch answered with status 500 and a
    valid success envelope is neither the classifier's error (the
    classifier succeeds) nor a parse failure: it is the client's own
    [api_error]. *)
Lemma send_fetch_500_success_envelope :
  response_ok resp_500_success = false /\
  parseJsonResponse resp_500_success = Ok (JNum (NFin false 1 0)) /\
  fst (send demo_origin (lit "key-1") demo_new_URL demo_sign
         (fetch_returning resp_500_success) demo_get st_with_headers)
  = Ret (Err (api_error resp_500_success)).
Proof. split; [|split]; vm_compute; reflexivity. Qed.

(** Claim C6 (its failing input): the server's error carries
    [details: 0], yet the context is the status text, because the code
    falls back with [||], which also discards falsy details. *)
Theorem parseJsonResponse_falsy_details :
  parseJsonResponse resp_details_zero
  = Err (mkError (lit "quota_exceeded") (lit "Quota exceeded") (Some (lit "quota"))
           (Some (JNum (NZero false))) (Some (JStr (lit "Too Many Requests")))).
Proof. vm_compute. reflexivity. Qed.

(** Claim C5 (its failing input): a store command whose policy holds a
    string with a character above U+00FF (here the euro sign, a value the
    policy schema accepts) makes [btoa] throw InvalidCharacterError out of
    [createSignedUrl] and [send], instead of returning a Result. *)
Theorem createSignedUrl_throws_on_non_latin1_policy :
  fst (createSignedUrl demo_origin (lit "key-1") demo_new_URL demo_sign demo_put_euro None
         st_with_headers) = Throw InvalidCharacterError /\
  fst (send demo_origin (lit "key-1") demo_new_URL demo_sign
         (fetch_returning resp_500_success) demo_put_euro st_with_headers)
  = Throw InvalidCharacterError.
Proof. split; vm_compute; reflexivity. Qed.

Lemma params_get_set (n v : jstr) (l : list (jstr * jstr)) :
  params_get n (params_set n v l) = Some v.
Proof.
  induction l as [|[n' v'] l IH]; simpl.
  - rewrite bool_decide_true; done.
  - destruct (bool_decide (n' = n)) eqn:E; simpl.
    + rewrite bool_decide_true; done.
    + rewrite E. exact IH.
Qed.

Lemma params_get_filter_ne (n n' : jstr) (l : list (jstr * jstr)) :
  n' <> n ->
  params_get n' (filter (fun p => negb (bool_decide (p.1 = n))) l) = params_get n' l.
Proof.
  intros Hne. induction l as [|[m w] l IH]; [done|].
  rewrite filter_cons. simpl.
  destruct (bool_decide (m = n)) eqn:E; simpl.
  - apply bool_decide_eq_true in E. subst m.
    rewrite (bool_decide_false (n = n')) by done. exact IH.
  - destruct (bool_decide (m = n')); [done|]. exact IH.
Qed.

Lemma params_get_set_ne (n n' v : jstr) (l : list (jstr * jstr)) :
  n' <> n -> params_get n' (params_set n v l) = params_get n' l.
Proof.
  intros Hne. induction l as [|[m w] l IH]; simpl.
  - rewrite bool_decide_false; done.
  - destruct (bool_decide (m = n)) eqn:E; simpl.
    + apply bool_decide_eq_true in E. subst m.
      rewrite !(bool_decide_false (n = n')) by done.
      apply params_get_filter_ne. exact Hne.
    + destruct (bool_decide (m = n')); [done|]. exact IH.
Qed.

Lemma url_at_update_obj_same (l : nat) (u : url_rec) (g : url_rec -> url_rec) (st : state) :
  st_heap st !! l = Some (OURL u) ->
  url_at (update_obj l (fun o => match o with OURL u => OURL (g u) | _ => o end) st) l = g u.
Proof.
  intros H. unfold update_obj. rewrite H. unfold url_at. simpl.
  rewrite lookup_insert_eq. reflexivity.
Qed.

(** Claim C1: for a store command, every call that [createSignedUrl]
    makes to the signing primitive lists the components
    [@method, @scheme, @authority, @path] and then the query parameter
    [x-medoro-policy], and is made on a URL whose [x-medoro-policy] is
    already the base64 of [String(JSON.stringify(policy))]. *)
Theorem createSignedUrl_signs_policy (origin keyId : jstr)
    (new_URL : jstr -> jstr -> option url_rec)
    (sign : sign_request -> result sign_output client_error)
    (c : MedoroDataplaneCommand) (policy : jval) (content : option jstr)
    (e : option jsnum) (st : state) :
  let '(o, st') := createSignedUrl origin keyId new_URL sign (CPut c policy content) e st in
  exists calls, st_trace st' = calls ++ st_trace st /\
  forall r, ESign r ∈ calls ->
    sr_signatureInputs r = base_signature_inputs ++ [SIQueryParam policy_param] /\
    exists b, btoa (JSON_stringify_string policy) = Some b /\
              params_get policy_param (url_query (sr_url r)) = Some b.
Proof.
  unfold createSignedUrl.
  destruct (js_lt _ 10 || js_gt _ 604800).
  { exists []. split; [done|]. intros r Hr. apply elem_of_nil in Hr. done. }
  destruct (new_URL _ origin) as [u0|]; unfold_M; simpl.
  2:{ exists []. split; [done|]. intros r Hr. apply elem_of_nil in Hr. done. }
  destruct (btoa _) as [b|] eqn:Hb; simpl.
  2:{ exists []. split; [done|]. intros r Hr. apply elem_of_nil in Hr. done. }
  destruct (sign _) as [out|err]; simpl;
    (eexists [_]; split; [state_simpl; reflexivity|]);
    intros r Hr; apply list_elem_of_singleton in Hr; injection Hr as ->; simpl;
    (split; [reflexivity|]); exists b; (split; [first [reflexivity | exact Hb]|]);
    rewrite (url_at_update_obj_same _ u0 (url_set_param policy_param b))
      by (simpl; apply lookup_insert_eq);
    apply params_get_set.
Qed.

(** ** JSON and base64 round trips *)

Ltac dlia := Z.to_euclidean_division_equations; lia.

Lemma forall_range (f : Z -> bool) (n : nat) :
  forallb f (map Z.of_nat (seq 0 n)) = true ->
  forall x, 0 <= x < Z.of_nat n -> f x = true.
Proof.
  intros H x Hx. rewrite forallb_forall in H. apply H.
  apply in_map_iff. exists (Z.to_nat x). split; [lia|].
  apply in_seq. lia.
Qed.

Lemma b64_char_ok (x : Z) :
  0 <= x < 64 ->
  b64_value (b64_char x) = Some x /\ b64_char x <> 61 /\ is_ascii_ws (b64_char x) = false.
Proof.
  intros Hx.
  assert (Hall : forallb (fun x => bool_decide (b64_value (b64_char x) = Some x)
                                   && negb (b64_char x =? 61)
                                   && negb (is_ascii_ws (b64_char x)))
                   (map Z.of_nat (seq 0 64)) = true) by (vm_compute; reflexivity).
  pose proof (forall_range _ _ Hall x Hx) as H.
  apply andb_prop in H as [H H3]. apply andb_prop in H as [H1 H2].
  apply bool_decide_eq_true in H1. apply negb_true_iff in H2, H3.
  apply Z.eqb_neq in H2. auto.
Qed.

Lemma base64_encode_shape (s : list Z) :
  forallb is_byte s = true ->
  exists body pad,
    base64_encode s = body ++ pad /\
    base64_decode_groups body = Some s /\
    Forall (fun c => c <> 61 /\ is_ascii_ws c = false) body /\
    ((pad = [] /\ (length body mod 4 = 0)%nat) \/
     (pad = [61] /\ (length body mod 4 = 3)%nat) \/
     (pad = [61; 61] /\ (length body mod 4 = 2)%nat)).
Proof.
  induction s as [s IH] using (induction_ltof1 _ (@length Z)); unfold ltof in IH.
  destruct s as [|a [|b [|c r]]]; intros Hb; simpl in Hb.
  - exists [], []. repeat split; auto.
  - apply andb_prop in Hb as [Ha _]. unfold is_byte in Ha.
    apply andb_prop in Ha as [Ha1 Ha2]. apply Z.leb_le in Ha1, Ha2.
    destruct (b64_char_ok (a / 4)) as (H1 & H1' & H1''); [dlia|].
    destruct (b64_char_ok (a mod 4 * 16)) as (H2 & H2' & H2''); [dlia|].
    exists [b64_char (a / 4); b64_char (a mod 4 * 16)], [61; 61].
    split; [reflexivity|]. split.
    + simpl. rewrite H1, H2. do 2 f_equal. dlia.
    + split; [repeat constructor; auto|]. right; right. split; reflexivity.
  - apply andb_prop in Hb as [Ha Hb]. apply andb_prop in Hb as [Hb _].
    unfold is_byte in Ha, Hb.
    apply andb_prop in Ha as [Ha1 Ha2]. apply Z.leb_le in Ha1, Ha2.
    apply andb_prop in Hb as [Hb1 Hb2]. apply Z.leb_le in Hb1, Hb2.
    destruct (b64_char_ok (a / 4)) as (H1 & H1' & H1''); [dlia|].
    destruct (b64_char_ok (a mod 4 * 16 + b / 16)) as (H2 & H2' & H2''); [dlia|].
    destruct (b64_char_ok (b mod 16 * 4)) as (H3 & H3' & H3''); [dlia|].
    exists [b64_char (a / 4); b64_char (a mod 4 * 16 + b / 16); b64_char (b mod 16 * 4)], [61].
    split; [reflexivity|]. split.
    + simpl. rewrite H1, H2, H3. do 2 f_equal; [|f_equal]; dlia.
    + split; [repeat constructor; auto|]. right; left. split; reflexivity.
  - apply andb_prop in Hb as [Ha Hb]. apply andb_prop in Hb as [Hb Hb'].
    apply andb_prop in Hb' as [Hc Hr].
    unfold is_byte in Ha, Hb, Hc.
    apply andb_prop in Ha as [Ha1 Ha2]. apply Z.leb_le in Ha1, Ha2.
    apply andb_prop in Hb as [Hb1 Hb2]. apply Z.leb_le in Hb1, Hb2.
    apply andb_prop in Hc as [Hc1 Hc2]. apply Z.leb_le in Hc1, Hc2.
    destruct (IH r) as (body & pad & He & Hd & Hf & Hp); [simpl; lia | exact Hr |].
    destruct (b64_char_ok (a / 4)) as (H1 & H1' & H1''); [dlia|].
    destruct (b64_char_ok (a mod 4 * 16 + b / 16)) as (H2 & H2' & H2''); [dlia|].
    destruct (b64_char_ok (b mod 16 * 4 + c / 64)) as (H3 & H3' & H3''); [dlia|].
    destruct (b64_char_ok (c mod 64)) as (H4 & H4' & H4''); [dlia|].
    exists ([b64_char (a / 4); b64_char (a mod 4 * 16 + b / 16);
             b64_char (b mod 16 * 4 + c / 64); b64_char (c mod 64)] ++ body), pad.
    split; [simpl; rewrite He; reflexivity|]. split.
    + simpl. rewrite H1, H2, H3, H4, Hd. simpl. do 2 f_equal; [|f_equal; [|f_equal]]; dlia.
    + split; [repeat constructor; auto|].
      simpl length. replace (S (S (S (S (length body))))) with (length body + 1 * 4)%nat by lia.
      rewrite Nat.Div0.mod_add. exact Hp.
Qed.

Lemma filter_no_ws (l : list Z) :
  Forall (fun c => is_ascii_ws c = false) l ->
  filter (fun c => negb (is_ascii_ws c)) l = l.
Proof.
  induction 1 as [|c l Hc Hl IH]; [done|].
  rewrite filter_cons, Hc. simpl. f_equal. exact IH.
Qed.

Lemma atob_base64_encode (s : list Z) :
  forallb is_byte s = true -> atob (base64_encode s) = Some s.
Proof.
  intros Hb. destruct (base64_encode_shape s Hb) as (body & pad & He & Hd & Hf & Hp).
  unfold atob. rewrite He, filter_no_ws.
  2:{ apply Forall_app. split; [eapply Forall_impl; [exact Hf | intros c [_ H]; exact H]|].
      destruct Hp as [[-> _]|[[-> _]|[-> _]]]; repeat constructor. }
  unfold strip_padding. rewrite length_app.
  pose proof (Nat.div_mod_eq (length body) 4).
  destruct Hp as [[-> Hm]|[[-> Hm]|[-> Hm]]]; simpl length.
  - rewrite Nat.add_0_r, app_nil_r.
    replace (Z.of_nat (length body) mod 4 =? 0) with true
      by (symmetry; apply Z.eqb_eq; rewrite <- (Nat2Z.inj_mod _ 4%nat) in *; lia).
    destruct (reverse body) as [|a r] eqn:Er; [exact Hd|].
    assert (Ha : a ∈ body) by (rewrite <- elem_of_reverse, Er; left).
    rewrite Forall_forall in Hf. destruct (Hf a) as [Ha61 _]; [exact Ha|].
    rewrite (proj2 (Z.eqb_neq a 61) Ha61). exact Hd.
  - replace (Z.of_nat (length body + 1) mod 4 =? 0) with true
      by (symmetry; apply Z.eqb_eq; zify; Z.to_euclidean_division_equations; lia).
    rewrite reverse_snoc. simpl.
    destruct (reverse body) as [|b r] eqn:Er.
    + rewrite <- Er, reverse_involutive. exact Hd.
    + assert (Hb' : b ∈ body) by (rewrite <- elem_of_reverse, Er; left).
      rewrite Forall_forall in Hf. destruct (Hf b) as [Hb61 _]; [exact Hb'|].
      rewrite (proj2 (Z.eqb_neq b 61) Hb61), <- Er, reverse_involutive. exact Hd.
  - replace (Z.of_nat (length body + 2) mod 4 =? 0) with true
      by (symmetry; apply Z.eqb_eq; zify; Z.to_euclidean_division_equations; lia).
    replace (body ++ [61; 61]) with ((body ++ [61]) ++ [61]) by (rewrite <- app_assoc; done).
    rewrite !reverse_snoc. simpl. rewrite reverse_involutive. exact Hd.
Qed.

(** Decimal digits *)

Lemma digits_value_app (acc : Z) (l1 l2 : list Z) :
  digits_value acc (l1 ++ l2) = digits_value (digits_value acc l1) l2.
Proof. revert acc. induction l1 as [|d l1 IH]; intros acc; simpl; auto. Qed.

Lemma digits_value_zeros (acc : Z) (j : nat) :
  digits_value acc (repeat 0 j) = acc * 10 ^ Z.of_nat j.
Proof.
  revert acc. induction j as [|j IH]; intros acc; simpl.
  - lia.
  - rewrite IH. rewrite Nat2Z.inj_succ, Z.pow_succ_r by lia. lia.
Qed.

Lemma digits_value_acc (acc : Z) (l : list Z) :
  digits_value acc l = acc * 10 ^ Z.of_nat (length l) + digits_value 0 l.
Proof.
  revert acc. induction l as [|d l IH]; intros acc; simpl.
  - lia.
  - rewrite (IH (acc * 10 + d)), (IH (0 * 10 + d)). rewrite Nat2Z.inj_succ, Z.pow_succ_r by lia. lia.
Qed.

Lemma pos_size_nat_bound (p : positive) : Z.pos p < 2 ^ Z.of_nat (Pos.size_nat p).
Proof.
  induction p as [p IH|p IH|]; simpl Pos.size_nat; rewrite ?Nat2Z.inj_succ, ?Z.pow_succ_r by lia;
    try lia.
Qed.

Lemma digits_fuel_spec (f : nat) (m : Z) :
  0 < m < 10 ^ Z.of_nat f ->
  exists d r, digits_fuel f m = d :: r /\ 0 < d < 10 /\ Forall digit_ok r /\
              digits_value 0 (d :: r) = m.
Proof.
  revert m. induction f as [|f IH]; intros m Hm.
  - simpl in Hm. lia.
  - simpl. destruct (m <? 10) eqn:E.
    + apply Z.ltb_lt in E. exists m, []. repeat split; auto; lia.
    + apply Z.ltb_ge in E.
      rewrite Nat2Z.inj_succ, Z.pow_succ_r in Hm by lia.
      destruct (IH (m / 10)) as (d & r & Hd & Hd0 & Hr & Hv).
      { split; [apply Z.div_str_pos; lia|]. apply Z.div_lt_upper_bound; lia. }
      rewrite Hd. exists d, (r ++ [m mod 10]). split; [reflexivity|]. split; [exact Hd0|].
      split.
      * apply Forall_app. split; [exact Hr|]. repeat constructor; unfold digit_ok;
          [apply Z.mod_pos_bound | apply Z.mod_pos_bound]; lia.
      * change (d :: r ++ [m mod 10]) with ((d :: r) ++ [m mod 10]).
        rewrite digits_value_app. simpl in Hv. rewrite Hv. simpl. pose proof (Z.div_mod m 10). lia.
Qed.

Lemma digits_spec (m : Z) :
  0 < m ->
  exists d r, digits m = d :: r /\ 0 < d < 10 /\ Forall digit_ok r /\
              digits_value 0 (d :: r) = m.
Proof.
  intros Hm. unfold digits. apply digits_fuel_spec. split; [exact Hm|].
  destruct m as [|p|p]; try lia. simpl Z.to_pos.
  pose proof (pos_size_nat_bound p).
  assert (2 ^ Z.of_nat (Pos.size_nat p) <= 10 ^ Z.of_nat (Pos.size_nat p)).
  { apply Z.pow_le_mono_l. lia. }
  lia.
Qed.

Lemma span_digits_map (ds : list Z) (rest : jstr) :
  Forall digit_ok ds -> nondigit_head rest ->
  span_digits (map digit_char ds ++ rest) = (ds, rest).
Proof.
  intros Hds Hr. induction Hds as [|d ds Hd Hds IH]; simpl.
  - destruct rest as [|c r]; simpl in *; [reflexivity|]. rewrite Hr. reflexivity.
  - unfold digit_char, is_digit, digit_ok in *.
    replace ((48 <=? 48 + d) && (48 + d <=? 57)) with true
      by (symmetry; apply andb_true_intro; split; apply Z.leb_le; lia).
    rewrite IH. f_equal. f_equal. lia.
Qed.

(** Trailing zeros are removed by [strip10]. *)
Lemma strip10_spec (fuel j : nat) (m E : Z) :
  0 < m -> m mod 10 <> 0 -> (j <= fuel)%nat ->
  strip10 fuel (m * 10 ^ Z.of_nat j) E = (m, E + Z.of_nat j).
Proof.
  revert fuel E. induction j as [|j IH]; intros fuel E Hm Hm10 Hj.
  - rewrite Z.mul_1_r, Z.add_0_r. destruct fuel; simpl; [reflexivity|].
    rewrite (proj2 (Z.eqb_neq _ 0) Hm10). reflexivity.
  - destruct fuel as [|fuel]; [lia|]. simpl.
    rewrite Nat2Z.inj_succ, Z.pow_succ_r by lia.
    replace (m * (10 * 10 ^ Z.of_nat j)) with ((m * 10 ^ Z.of_nat j) * 10) by lia.
    rewrite Z.mod_mul, Z.div_mul by lia. simpl.
    rewrite IH by lia. f_equal. lia.
Qed.

Lemma mk_dec_spec (neg : bool) (fuel j : nat) (m E : Z) :
  0 < m -> m mod 10 <> 0 -> (j <= fuel)%nat ->
  mk_dec neg fuel (m * 10 ^ Z.of_nat j) E = NFin neg m (E + Z.of_nat j).
Proof.
  intros Hm Hm10 Hj. unfold mk_dec.
  assert (0 < 10 ^ Z.of_nat j) by (apply Z.pow_pos_nonneg; lia).
  rewrite (proj2 (Z.eqb_neq _ 0)) by nia.
  rewrite strip10_spec by done. reflexivity.
Qed.

Lemma value_stop_nondigit (s : jstr) : value_stop s -> nondigit_head s.
Proof.
  destruct s as [|c s]; simpl; [done|]. intros H.
  destruct H as [-> | [-> | ->]]; reflexivity.
Qed.

Lemma parse_frac_none (s : jstr) :
  match s with [] => True | c :: _ => c <> 46 end -> parse_frac s = Some ([], s).
Proof.
  destruct s as [|c s]; simpl; [done|]. intros H. rewrite (proj2 (Z.eqb_neq c 46) H). done.
Qed.

Lemma parse_exp_none (s : jstr) :
  match s with [] => True | c :: _ => c <> 101 /\ c <> 69 end -> parse_exp s = Some (0, s).
Proof.
  destruct s as [|c s]; simpl; [done|]. intros [H1 H2].
  rewrite (proj2 (Z.eqb_neq c 101) H1), (proj2 (Z.eqb_neq c 69) H2). done.
Qed.

Lemma parse_int_digits (ds : list Z) (rest : jstr) :
  Forall digit_ok ds -> (exists d r, ds = d :: r /\ 0 < d) -> nondigit_head rest ->
  parse_int (map digit_char ds ++ rest) = Some (ds, rest).
Proof.
  intros Hds (d & r & -> & Hd) Hr. simpl.
  inversion Hds as [|? ? Hd' Hr']; subst. unfold digit_ok in Hd'. unfold digit_char, is_digit.
  rewrite (proj2 (Z.eqb_neq (48 + d) 48)) by lia.
  replace ((48 <=? 48 + d) && (48 + d <=? 57)) with true
    by (symmetry; apply andb_true_intro; split; apply Z.leb_le; lia).
  change (48 + d :: map (fun d => 48 + d) r ++ rest) with (map digit_char (d :: r) ++ rest).
  rewrite span_digits_map by done. replace (48 + d - 48) with d by lia. reflexivity.
Qed.

Lemma parse_frac_digits (ds : list Z) (rest : jstr) :
  Forall digit_ok ds -> ds <> [] -> nondigit_head rest ->
  parse_frac (46 :: map digit_char ds ++ rest) = Some (ds, rest).
Proof.
  intros Hds Hne Hr. simpl. rewrite span_digits_map by done.
  destruct ds; [done | reflexivity].
Qed.

Lemma parse_exp_digits (sgn : Z) (ds : list Z) (rest : jstr) :
  sgn = 43 \/ sgn = 45 -> Forall digit_ok ds -> ds <> [] -> nondigit_head rest ->
  parse_exp (101 :: sgn :: map digit_char ds ++ rest)
  = Some ((if sgn =? 45 then - digits_value 0 ds else digits_value 0 ds), rest).
Proof.
  intros Hs Hds Hne Hr. simpl.
  destruct Hs as [->| ->]; simpl; rewrite span_digits_map by done;
    destruct ds; done.
Qed.

Lemma mk_dec_exact (neg : bool) (fuel : nat) (m E : Z) :
  0 < m -> m mod 10 <> 0 -> mk_dec neg fuel m E = NFin neg m E.
Proof.
  intros Hm Hm10. pose proof (mk_dec_spec neg fuel 0 m E Hm Hm10 ltac:(lia)) as H.
  simpl in H. rewrite Z.mul_1_r, Z.add_0_r in H. exact H.
Qed.

Lemma digits_value_head_zeros (j : nat) (ds : list Z) :
  digits_value 0 (repeat 0 j ++ ds) = digits_value 0 ds.
Proof. rewrite digits_value_app, digits_value_zeros. reflexivity. Qed.

Lemma Forall_digit_zeros (j : nat) : Forall digit_ok (repeat 0 j).
Proof. induction j; simpl; constructor; [unfold digit_ok; lia | exact IHj]. Qed.

Lemma pos_toString_parse (neg : bool) (m e : Z) (rest : jstr) :
  0 < m -> m mod 10 <> 0 -> value_stop rest ->
  parse_unsigned neg (pos_toString m e ++ rest) = Some (NFin neg m e, rest).
Proof.
  intros Hm Hm10 Hr.
  pose proof (value_stop_nondigit rest Hr) as Hrd.
  assert (Hrf : match rest with [] => True | c :: _ => c <> 46 end)
    by (destruct rest as [|c ?]; simpl in *; [done|lia]).
  assert (Hre : match rest with [] => True | c :: _ => c <> 101 /\ c <> 69 end)
    by (destruct rest as [|c ?]; simpl in *; [done|lia]).
  destruct (digits_spec m Hm) as (d & r & Hds & Hd & Hr' & Hv).
  assert (Hall : Forall digit_ok (d :: r)) by (constructor; [unfold digit_ok; lia | exact Hr']).
  unfold pos_toString. rewrite Hds.
  set (k := Z.of_nat (length (d :: r))).
  assert (Hk : k = Z.of_nat (length r) + 1) by (unfold k; simpl length; lia).
  destruct ((k <=? e + k) && (e + k <=? 21)) eqn:C1.
  - (* integer with trailing zeros *)
    apply andb_prop in C1 as [C1 C1']. apply Z.leb_le in C1, C1'.
    set (j := Z.to_nat (e + k - k)).
    assert (Ej : (map digit_char (d :: r) ++ repeat 48 j) ++ rest
                 = map digit_char ((d :: r) ++ repeat 0 j) ++ rest)
      by (rewrite map_app, map_repeat; reflexivity).
    rewrite Ej. unfold parse_unsigned.
    rewrite parse_int_digits; [|apply Forall_app; split; [exact Hall | apply Forall_digit_zeros]
                               | eexists _, _; split; [reflexivity | lia] | exact Hrd].
    rewrite parse_frac_none by exact Hrf. rewrite parse_exp_none by exact Hre.
    rewrite app_nil_r, digits_value_app, Hv, digits_value_zeros.
    rewrite mk_dec_spec by (try done; rewrite length_app, repeat_length; lia).
    do 3 f_equal. unfold j. rewrite Z2Nat.id by lia. simpl. lia.
  - destruct ((0 <? e + k) && (e + k <=? 21)) eqn:C2.
    + (* a decimal point inside the digits *)
      apply andb_prop in C2 as [C2 C2']. apply Z.ltb_lt in C2. apply Z.leb_le in C2'.
      assert (Hnk : e + k < k).
      { apply andb_false_iff in C1 as [C1|C1]; apply Z.leb_gt in C1; lia. }
      destruct (Z.to_nat (e + k)) as [|t] eqn:Et; [lia|].
      assert (Ht : (t < length r)%nat) by lia.
      simpl firstn; simpl skipn.
      rewrite firstn_map, skipn_map.
      assert (Ej : ((digit_char d :: map digit_char (firstn t r)) ++ [46] ++
                    map digit_char (skipn t r)) ++ rest
                   = map digit_char (d :: firstn t r) ++
                     46 :: map digit_char (skipn t r) ++ rest)
        by (simpl; rewrite <- ?app_assoc; reflexivity).
      rewrite Ej. unfold parse_unsigned.
      rewrite parse_int_digits; [| constructor; [unfold digit_ok; lia | apply Forall_take; exact Hr']
                                 | eexists _, _; split; [reflexivity | lia] | reflexivity].
      rewrite parse_frac_digits;
        [| apply Forall_drop; exact Hr'
         | intros Hnil; apply (f_equal length) in Hnil; rewrite length_drop in Hnil; simpl in Hnil; lia
         | exact Hrd].
      rewrite parse_exp_none by exact Hre.
      replace ((d :: firstn t r) ++ skipn t r) with (d :: r) by (simpl; rewrite take_drop; reflexivity).
      rewrite Hv, mk_dec_exact by done. do 3 f_equal.
      rewrite length_drop. lia.
    + destruct ((-6 <? e + k) && (e + k <=? 0)) eqn:C3.
      * (* a leading 0. and zeros *)
        apply andb_prop in C3 as [C3 C3']. apply Z.ltb_lt in C3. apply Z.leb_le in C3'.
        set (z := Z.to_nat (- (e + k))).
        assert (Ej : ([48; 46] ++ repeat 48 z ++ map digit_char (d :: r)) ++ rest
                     = 48 :: 46 :: map digit_char (repeat 0 z ++ d :: r) ++ rest)
          by (rewrite map_app, map_repeat; simpl; rewrite <- ?app_assoc; reflexivity).
        rewrite Ej. unfold parse_unsigned. simpl parse_int. cbv iota beta.
        rewrite parse_frac_digits;
          [| apply Forall_app; split; [apply Forall_digit_zeros | exact Hall]
           | destruct z; discriminate
           | exact Hrd].
        rewrite parse_exp_none by exact Hre.
        change ([0] ++ repeat 0 z ++ d :: r) with (repeat 0 1 ++ repeat 0 z ++ d :: r).
        rewrite !digits_value_head_zeros, Hv, mk_dec_exact by done. do 3 f_equal.
        rewrite length_app, repeat_length. unfold z. simpl length in *. lia.
      * (* exponent notation *)
        assert (Hn1 : 0 < Z.abs (e + k - 1)).
        { apply andb_false_iff in C1 as [C1|C1]; apply Z.leb_gt in C1;
          apply andb_false_iff in C2 as [C2|C2]; try apply Z.ltb_ge in C2; try apply Z.leb_gt in C2;
          apply andb_false_iff in C3 as [C3|C3]; try apply Z.ltb_ge in C3; try apply Z.leb_gt in C3;
          lia. }
        destruct (digits_spec _ Hn1) as (d' & r' & Hds' & Hd' & Hr'' & Hv').
        rewrite Hds'.
        assert (Hall' : Forall digit_ok (d' :: r'))
          by (constructor; [unfold digit_ok; lia | exact Hr'']).
        set (sgn := if e + k - 1 <? 0 then 45 else 43).
        assert (Hsgn : sgn = 43 \/ sgn = 45) by (unfold sgn; destruct (_ <? 0); auto).
        assert (Hx : (if sgn =? 45 then - digits_value 0 (d' :: r') else digits_value 0 (d' :: r'))
                     = e + k - 1).
        { rewrite Hv'. unfold sgn. destruct (e + k - 1 <? 0) eqn:Hs; simpl.
          - apply Z.ltb_lt in Hs. lia.
          - apply Z.ltb_ge in Hs. lia. }
        destruct (k =? 1) eqn:C4.
        -- apply Z.eqb_eq in C4.
           assert (r = []) as -> by (destruct r; [done | simpl in Hk; lia]).
           assert (Ej : (map digit_char [d] ++ [101] ++ sgn :: map digit_char (d' :: r')) ++ rest
                        = map digit_char [d] ++ 101 :: sgn :: map digit_char (d' :: r') ++ rest)
             by (simpl; rewrite <- ?app_assoc; reflexivity).
           rewrite Ej. unfold parse_unsigned.
           rewrite parse_int_digits; [| exact Hall | eexists _, _; split; [reflexivity | lia]
                                      | reflexivity].
           rewrite parse_frac_none by discriminate.
           rewrite parse_exp_digits by (try done; exact Hrd).
           rewrite Hx. simpl app. change (digits_value 0 [d]) with (0 * 10 + d).
           replace (0 * 10 + d) with m by (simpl in Hv; lia).
           rewrite mk_dec_exact by done. do 3 f_equal. simpl in Hk |- *. lia.
        -- apply Z.eqb_neq in C4.
           assert (Hrne : r <> []) by (intros ->; simpl in Hk; lia).
           assert (Ej : (firstn 1 (map digit_char (d :: r)) ++ [46] ++
                         skipn 1 (map digit_char (d :: r)) ++ [101] ++
                         sgn :: map digit_char (d' :: r')) ++ rest
                        = map digit_char [d] ++ 46 :: map digit_char r ++
                          101 :: sgn :: map digit_char (d' :: r') ++ rest)
             by (simpl; rewrite <- ?app_assoc; reflexivity).
           rewrite Ej. unfold parse_unsigned.
           rewrite parse_int_digits; [| constructor; [unfold digit_ok; lia | constructor]
                                      | eexists _, _; split; [reflexivity | lia] | reflexivity].
           rewrite parse_frac_digits by (try done; reflexivity).
           rewrite parse_exp_digits by (try done; exact Hrd).
           rewrite Hx. change ([d] ++ r) with (d :: r).
           rewrite Hv, mk_dec_exact by done. do 3 f_equal. lia.
Qed.

Lemma pos_toString_head (m e : Z) :
  0 < m -> exists c t, pos_toString m e = c :: t /\ 48 <= c <= 57.
Proof.
  intros Hm. destruct (digits_spec m Hm) as (d & r & Hds & Hd & _ & _).
  unfold pos_toString. rewrite Hds.
  set (k := Z.of_nat (length (d :: r))).
  destruct ((k <=? e + k) && (e + k <=? 21)) eqn:C1;
    [simpl; eexists _, _; split; [reflexivity | unfold digit_char; lia]|].
  destruct ((0 <? e + k) && (e + k <=? 21)) eqn:C2.
  - apply andb_prop in C2 as [C2 _]. apply Z.ltb_lt in C2.
    destruct (Z.to_nat (e + k)) eqn:Et; [lia|].
    simpl. eexists _, _; split; [reflexivity | unfold digit_char; lia].
  - destruct ((-6 <? e + k) && (e + k <=? 0)); [simpl; eexists _, _; split; [reflexivity | lia]|].
    destruct (k =? 1); simpl; eexists _, _; (split; [reflexivity | unfold digit_char; lia]).
Qed.

Lemma Number_toString_parse (n : jsnum) (rest : jstr) :
  num_faithful n = true -> value_stop rest ->
  parse_number (Number_toString n ++ rest) = Some (n, rest).
Proof.
  intros Hn Hr.
  destruct n as [neg m e|neg| |]; simpl in Hn; try discriminate.
  - apply andb_prop in Hn as [Hm Hm10]. apply Z.ltb_lt in Hm.
    apply negb_true_iff, Z.eqb_neq in Hm10.
    destruct neg; simpl Number_toString.
    + simpl. apply pos_toString_parse; done.
    + destruct (pos_toString_head m e Hm) as (c & t & Ht & Hc).
      assert (Hs : parse_sign (pos_toString m e ++ rest) = (false, pos_toString m e ++ rest))
        by (rewrite Ht; simpl; rewrite (proj2 (Z.eqb_neq c 45)) by lia; reflexivity).
      unfold parse_number. rewrite Hs. apply pos_toString_parse; done.
  - destruct neg; [discriminate|].
    change (Number_toString (NZero false) ++ rest) with (48 :: rest).
    unfold parse_number, parse_sign, parse_unsigned. simpl.
    rewrite parse_frac_none by (destruct rest as [|c ?]; simpl in *; [done|lia]).
    rewrite parse_exp_none by (destruct rest as [|c ?]; simpl in *; [done|lia]).
    reflexivity.
Qed.

(** Strings *)

Lemma hex_value_char (d : Z) : 0 <= d < 16 -> hex_value (hex_char d) = Some d.
Proof.
  intros Hd.
  assert (Hall : forallb (fun d => bool_decide (hex_value (hex_char d) = Some d))
                   (map Z.of_nat (seq 0 16)) = true) by (vm_compute; reflexivity).
  exact (bool_decide_eq_true_1 _ (forall_range _ _ Hall d Hd)).
Qed.

Lemma hex4_unicode_escape (c : Z) :
  0 <= c < 65536 ->
  hex4 (hex_char (c / 4096)) (hex_char (c / 256 mod 16)) (hex_char (c / 16 mod 16))
       (hex_char (c mod 16)) = Some c.
Proof.
  intros Hc. unfold hex4.
  rewrite !hex_value_char by (Z.to_euclidean_division_equations; lia).
  f_equal. Z.to_euclidean_division_equations. lia.
Qed.

Lemma unicode_escape_parse (c : Z) (t : jstr) :
  0 <= c < 65536 ->
  parse_string_body (unicode_escape c ++ t) = cons_fst c (parse_string_body t).
Proof.
  intros Hc. unfold unicode_escape. simpl. rewrite hex4_unicode_escape by done. reflexivity.
Qed.

Lemma parse_string_plain (c : Z) (t : jstr) :
  32 <= c -> c <> 34 -> c <> 92 ->
  parse_string_body (c :: t) = cons_fst c (parse_string_body t).
Proof.
  intros H32 H34 H92. simpl.
  rewrite (proj2 (Z.eqb_neq c 34) H34), (proj2 (Z.eqb_neq c 92) H92).
  replace (c <? 32) with false by (symmetry; apply Z.ltb_ge; lia). reflexivity.
Qed.

Lemma esc_unit_parse (c : Z) (t : jstr) :
  0 <= c < 65536 ->
  parse_string_body (esc_unit c ++ t) = cons_fst c (parse_string_body t).
Proof.
  intros Hc. unfold esc_unit.
  destruct (c =? 8) eqn:E8; [apply Z.eqb_eq in E8; subst; reflexivity|].
  destruct (c =? 9) eqn:E9; [apply Z.eqb_eq in E9; subst; reflexivity|].
  destruct (c =? 10) eqn:E10; [apply Z.eqb_eq in E10; subst; reflexivity|].
  destruct (c =? 12) eqn:E12; [apply Z.eqb_eq in E12; subst; reflexivity|].
  destruct (c =? 13) eqn:E13; [apply Z.eqb_eq in E13; subst; reflexivity|].
  destruct (c =? 34) eqn:E34; [apply Z.eqb_eq in E34; subst; reflexivity|].
  destruct (c =? 92) eqn:E92; [apply Z.eqb_eq in E92; subst; reflexivity|].
  destruct (c <? 32) eqn:E32; [apply unicode_escape_parse; done|].
  apply Z.ltb_ge in E32. apply Z.eqb_neq in E34, E92.
  apply parse_string_plain; done.
Qed.

Arguments unicode_escape : simpl never.
Arguments esc_unit : simpl never.

Lemma quote_units_cons (c : Z) (r : jstr) :
  quote_units (c :: r)
  = if is_high c then
      match r with
      | d :: r' => if is_low d then c :: d :: quote_units r'
                   else unicode_escape c ++ quote_units r
      | [] => unicode_escape c
      end
    else if is_low c then unicode_escape c ++ quote_units r
    else esc_unit c ++ quote_units r.
Proof. reflexivity. Qed.

Lemma quote_units_parse (s rest : jstr) :
  forallb unit_ok s = true ->
  parse_string_body (quote_units s ++ 34 :: rest) = Some (s, rest).
Proof.
  induction s as [s IH] using (induction_ltof1 _ (@length Z)); unfold ltof in IH.
  destruct s as [|c r]; intros Hs; [reflexivity|].
  simpl in Hs. apply andb_prop in Hs as [Hc Hr]. unfold unit_ok in Hc.
  apply andb_prop in Hc as [Hc1 Hc2]. apply Z.leb_le in Hc1. apply Z.ltb_lt in Hc2.
  rewrite quote_units_cons. destruct (is_high c) eqn:Hh.
  - unfold is_high in Hh. apply andb_prop in Hh as [Hh1 Hh2]. apply Z.leb_le in Hh1, Hh2.
    destruct r as [|d r'].
    + rewrite <- ?app_assoc, unicode_escape_parse by lia. reflexivity.
    + simpl in Hr. apply andb_prop in Hr as [Hd Hr'].
      cbv iota. destruct (is_low d) eqn:Hl.
      * unfold is_low in Hl. apply andb_prop in Hl as [Hl1 Hl2]. apply Z.leb_le in Hl1, Hl2.
        simpl app. rewrite parse_string_plain by lia. rewrite parse_string_plain by lia.
        rewrite IH by (try done; simpl; lia). reflexivity.
      * rewrite <- ?app_assoc, unicode_escape_parse by lia.
        rewrite IH; [reflexivity | simpl; lia | simpl; rewrite Hd; exact Hr'].
  - destruct (is_low c) eqn:Hl.
    + rewrite <- ?app_assoc, unicode_escape_parse by lia.
      rewrite IH; [reflexivity | simpl; lia | exact Hr].
    + rewrite <- ?app_assoc, esc_unit_parse by lia.
      rewrite IH; [reflexivity | simpl; lia | exact Hr].
Qed.

(** Values *)

Lemma SerializeJSONProperty_JArr (l : list jval) :
  SerializeJSONProperty (JArr l) = Some ([91] ++ join_comma (ser_elems l) ++ [93]).
Proof. reflexivity. Qed.

Lemma SerializeJSONProperty_JObj (l : list (jstr * jval)) :
  SerializeJSONProperty (JObj l)
  = match ser_members l with
    | [] => Some (lit "{}")
    | ms => Some ([123] ++ join_comma ms ++ [125])
    end.
Proof. reflexivity. Qed.

Lemma jval_ind' (P : jval -> Prop) :
  P JUndef -> P JNull -> (forall b, P (JBool b)) -> (forall n, P (JNum n)) ->
  (forall s, P (JStr s)) ->
  (forall l, Forall P l -> P (JArr l)) ->
  (forall l, Forall (fun kx => P kx.2) l -> P (JObj l)) ->
  forall v, P v.
Proof.
  intros HU HN HB HNum HS HA HO. fix IH 1. intros [| |b|n|s|l|l].
  - exact HU.
  - exact HN.
  - apply HB.
  - apply HNum.
  - apply HS.
  - apply HA. revert l. fix IHl 1. intros [|x l]; constructor; [apply IH | apply IHl].
  - apply HO. revert l. fix IHl 1. intros [|[k x] l]; constructor; [apply IH | apply IHl].
Qed.

Lemma Forall_forallb_impl {A} (f : A -> bool) (Q : A -> Prop) (l : list A) :
  Forall (fun x => f x = true -> Q x) l -> forallb f l = true -> Forall Q l.
Proof.
  induction 1 as [|x l Hx Hl IH]; simpl; [constructor|].
  intros H. apply andb_prop in H as [H1 H2]. constructor; auto.
Qed.

Lemma skip_ws_cons (c : Z) (t : jstr) : is_ws c = false -> skip_ws (c :: t) = c :: t.
Proof. intros H. simpl. rewrite H. reflexivity. Qed.

Lemma join_comma_cons (s : jstr) (ss : list jstr) :
  join_comma (s :: ss) = s ++ match ss with [] => [] | _ :: _ => 44 :: join_comma ss end.
Proof. destruct ss; simpl; [rewrite app_nil_r|]; reflexivity. Qed.

Lemma obj_put_fresh (k : jstr) (v : jval) (acc : list (jstr * jval)) :
  k ∉ acc.*1 -> obj_put k v acc = acc ++ [(k, v)].
Proof.
  induction acc as [|[k' v'] acc IH]; intros Hk; [reflexivity|].
  simpl in *. rewrite bool_decide_false by (intros ->; apply Hk; left).
  rewrite IH; [reflexivity|]. intros H; apply Hk; right; exact H.
Qed.

Lemma parse_elements_S (f : nat) (s : jstr) :
  parse_elements (S f) s =
  match parse_value f s with
  | None => None
  | Some (v, r) =>
      match skip_ws r with
      | x :: r' =>
          if x =? 44 then
            match parse_elements f r' with
            | Some (vs, r'') => Some (v :: vs, r'')
            | None => None
            end
          else if x =? 93 then Some ([v], r')
          else None
      | [] => None
      end
  end.
Proof. reflexivity. Qed.

Lemma parse_members_S (f : nat) (s : jstr) (acc : list (jstr * jval)) :
  parse_members (S f) s acc =
  match skip_ws s with
  | x :: r =>
    if x =? 34 then
      match parse_string_body r with
      | None => None
      | Some (k, r1) =>
        match skip_ws r1 with
        | y :: r2 =>
          if y =? 58 then
            match parse_value f r2 with
            | None => None
            | Some (v, r3) =>
                let acc' := obj_put k v acc in
                match skip_ws r3 with
                | z :: r4 =>
                    if z =? 44 then parse_members f r4 acc'
                    else if z =? 125 then Some (acc', r4)
                    else None
                | [] => None
                end
            end
          else None
        | [] => None
        end
      end
    else None
  | [] => None
  end.
Proof. reflexivity. Qed.

Lemma elems_parse (l : list jval) (rest : jstr) :
  Forall (fun x => exists s, ser_parses x s) l -> l <> [] ->
  forall f, (S (length (join_comma (ser_elems l))) <= f)%nat ->
  parse_elements f (join_comma (ser_elems l) ++ 93 :: rest) = Some (l, rest).
Proof.
  induction 1 as [|x r [sx (Hsx & _ & Hp)] Hr IH]; intros Hne f Hf; [done|].
  destruct f as [|f]; [lia|].
  simpl ser_elems in *. rewrite Hsx in *. rewrite join_comma_cons in *.
  rewrite parse_elements_S. destruct r as [|y r'].
  - rewrite app_nil_r in *. rewrite Hp by (try lia; simpl; auto).
    reflexivity.
  - assert (Hm : match ser_elems (y :: r') with [] => [] | _ :: _ => 44 :: join_comma (ser_elems (y :: r')) end
                 = 44 :: join_comma (ser_elems (y :: r'))) by reflexivity.
    rewrite Hm in *. rewrite length_app in Hf. cbn [length] in Hf.
    rewrite <- app_assoc. simpl app at 2.
    rewrite Hp by (try lia; simpl; auto).
    simpl skip_ws. cbv iota. simpl Z.eqb. cbv iota.
    rewrite IH by (try done; lia).
    reflexivity.
Qed.

Ltac len_lia H := repeat (progress (simpl in H; rewrite ?length_app in H)); lia.

Lemma ser_members_nil (l : list (jstr * jval)) :
  Forall (fun kx => forallb unit_ok kx.1 = true /\ exists s, ser_parses kx.2 s) l ->
  ser_members l = [] -> l = [].
Proof.
  intros Hl. destruct Hl as [|[k x] r [_ [sx [Hsx _]]] _]; [done|].
  simpl in Hsx. simpl. rewrite Hsx. discriminate.
Qed.

Lemma members_parse (l : list (jstr * jval)) (rest : jstr) :
  Forall (fun kx => forallb unit_ok kx.1 = true /\ exists s, ser_parses kx.2 s) l ->
  l <> [] ->
  forall acc, NoDup (acc ++ l).*1 ->
  forall f, (S (length (join_comma (ser_members l))) <= f)%nat ->
  parse_members f (join_comma (ser_members l) ++ 125 :: rest) acc = Some (acc ++ l, rest).
Proof.
  induction 1 as [|[k x] r [Hk [sx (Hsx & _ & Hp)]] Hr IH]; intros Hne acc Hnd f Hf; [done|].
  simpl in Hk, Hsx, Hp. destruct f as [|f]; [lia|].
  simpl ser_members in *. rewrite Hsx in *. rewrite join_comma_cons in *.
  rewrite fmap_app in Hnd. simpl in Hnd.
  assert (Hfresh : k ∉ acc.*1).
  { intros Hin. apply NoDup_app in Hnd as (_ & Hd & _). apply (Hd k Hin). left. }
  rewrite parse_members_S. unfold QuoteJSONString.
  destruct (ser_members r) as [|m ms] eqn:Hms.
  - apply ser_members_nil in Hms; [subst r | exact Hr].
    rewrite app_nil_r in *.
    simpl app. rewrite <- ?app_assoc. simpl app.
    simpl skip_ws. cbv iota. simpl Z.eqb. cbv iota.
    rewrite quote_units_parse by exact Hk.
    simpl skip_ws. cbv iota. simpl Z.eqb. cbv iota.
    rewrite Hp by (try (len_lia Hf); simpl; auto).
    simpl skip_ws. cbv iota beta. simpl Z.eqb. cbv iota.
    rewrite obj_put_fresh by exact Hfresh. reflexivity.
  - rewrite length_app in Hf. cbn [length] in Hf.
    set (J := join_comma (m :: ms)) in *.
    simpl app. rewrite <- ?app_assoc. simpl app.
    simpl skip_ws. cbv iota. simpl Z.eqb. cbv iota.
    rewrite quote_units_parse by exact Hk.
    simpl skip_ws. cbv iota. simpl Z.eqb. cbv iota.
    rewrite Hp by (try (len_lia Hf); simpl; auto).
    simpl skip_ws. cbv iota beta. simpl Z.eqb. cbv iota.
    rewrite obj_put_fresh by exact Hfresh.
    assert (Hr' : r <> []) by (intros ->; discriminate).
    rewrite IH; [| exact Hr' | | lia].
    + rewrite <- app_assoc. reflexivity.
    + rewrite !fmap_app, <- app_assoc. exact Hnd.
Qed.

Lemma Number_toString_head (n : jsnum) :
  num_faithful n = true ->
  exists c t, Number_toString n = c :: t /\ (c = 45 \/ 48 <= c <= 57).
Proof.
  destruct n as [neg m e|neg| |]; simpl; intros Hn; try discriminate.
  - apply andb_prop in Hn as [Hm _]. apply Z.ltb_lt in Hm.
    destruct neg; [eexists _, _; split; [reflexivity | left; reflexivity]|].
    destruct (pos_toString_head m e Hm) as (c & t & -> & Hc). eauto.
  - destruct neg; [discriminate|]. exists 48, []. split; [reflexivity | lia].
Qed.

Lemma lit_null : lit "null" = [110; 117; 108; 108].
Proof. reflexivity. Qed.
Lemma lit_true : lit "true" = [116; 114; 117; 101].
Proof. reflexivity. Qed.
Lemma lit_false : lit "false" = [102; 97; 108; 115; 101].
Proof. reflexivity. Qed.

Lemma parse_value_number (f : nat) (c : Z) (t : jstr) :
  c = 45 \/ 48 <= c <= 57 ->
  parse_value (S f) (c :: t)
  = match parse_number (c :: t) with Some (n, r') => Some (JNum n, r') | None => None end.
Proof.
  intros Hc. cbn [parse_value].
  replace (is_ws c) with false
    by (symmetry; unfold is_ws; repeat rewrite orb_false_iff; repeat split; apply Z.eqb_neq; lia).
  rewrite skip_ws_cons by (unfold is_ws; repeat rewrite orb_false_iff; repeat split;
                           apply Z.eqb_neq; lia).
  rewrite (proj2 (Z.eqb_neq c 34)), (proj2 (Z.eqb_neq c 91)), (proj2 (Z.eqb_neq c 123)) by lia.
  rewrite lit_null, lit_true, lit_false. cbn [strip_prefix].
  rewrite (proj2 (Z.eqb_neq 110 c)), (proj2 (Z.eqb_neq 116 c)), (proj2 (Z.eqb_neq 102 c)) by lia.
  reflexivity.
Qed.

Lemma serialize_parse (v : jval) :
  json_faithful v = true -> exists s, ser_parses v s.
Proof.
  induction v as [| |b|n|s|l IHl|l IHl] using jval_ind'; simpl json_faithful; intros Hv.
  - discriminate.
  - exists [110; 117; 108; 108]. split; [reflexivity|]. split; [eexists _, _; split; [reflexivity|]; split; [reflexivity | lia]|].
    intros [|f] rest Hf _; [simpl in Hf; lia | reflexivity].
  - destruct b.
    + exists [116; 114; 117; 101]. split; [reflexivity|]. split; [eexists _, _; split; [reflexivity|]; split; [reflexivity | lia]|].
      intros [|f] rest Hf _; [simpl in Hf; lia | reflexivity].
    + exists [102; 97; 108; 115; 101]. split; [reflexivity|]. split; [eexists _, _; split; [reflexivity|]; split; [reflexivity | lia]|].
      intros [|f] rest Hf _; [simpl in Hf; lia | reflexivity].
  - exists (Number_toString n).
    destruct (Number_toString_head n Hv) as (c & t & Ht & Hc).
    split.
    { simpl. replace (is_finite n) with true; [reflexivity|].
      destruct n as [| [|] | |]; simpl in Hv; try discriminate; reflexivity. }
    split.
    { exists c, t. split; [exact Ht|]. split; [|lia].
      unfold is_ws. repeat rewrite orb_false_iff. repeat split; apply Z.eqb_neq; lia. }
    intros [|f] rest Hf Hr; [rewrite Ht in Hf; simpl in Hf; lia|].
    rewrite Ht. simpl app. rewrite parse_value_number by exact Hc.
    change (c :: t ++ rest) with ((c :: t) ++ rest). rewrite <- Ht.
    rewrite Number_toString_parse by done. reflexivity.
  - exists (QuoteJSONString s). split; [reflexivity|].
    split; [eexists _, _; split; [reflexivity|]; split; [reflexivity | lia]|].
    intros [|f] rest Hf _; [simpl in Hf; lia|].
    unfold QuoteJSONString. simpl app. rewrite <- app_assoc. simpl app.
    cbn [parse_value skip_ws]. change (is_ws 34) with false. cbv iota. change (34 =? 34) with true. cbv iota.
    rewrite quote_units_parse by exact Hv. reflexivity.
  - assert (Hall : Forall (fun x => exists s, ser_parses x s) l).
    { apply (Forall_forallb_impl json_faithful); [|exact Hv].
      eapply Forall_impl; [exact IHl|]. intros x H H'. exact (H H'). }
    exists ([91] ++ join_comma (ser_elems l) ++ [93]).
    split; [apply SerializeJSONProperty_JArr|].
    split; [eexists _, _; split; [reflexivity|]; split; [reflexivity | lia]|].
    intros [|f] rest Hf _; [simpl in Hf; lia|].
    destruct l as [|x r].
    + reflexivity.
    + destruct (Forall_inv Hall) as [sx (Hsx & (c & t & Hct & Hcws & Hc93) & _)].
      pose proof (elems_parse (x :: r) rest Hall ltac:(done) f) as HE.
      assert (HJ : exists t', join_comma (ser_elems (x :: r)) = c :: t').
      { simpl ser_elems. rewrite Hsx, join_comma_cons, Hct. eexists. reflexivity. }
      destruct HJ as [t' HJ]. rewrite HJ in HE, Hf |- *.
      simpl app. cbn [parse_value]. simpl skip_ws. cbv iota. simpl Z.eqb. cbv iota.
      rewrite skip_ws_cons by exact Hcws. rewrite (proj2 (Z.eqb_neq c 93) Hc93).
      simpl app in HE. rewrite <- app_assoc. simpl app. rewrite HE; [reflexivity|].
      rewrite !length_app in Hf. simpl in Hf |- *. lia.
  - apply andb_prop in Hv as [Hnd Hv]. apply bool_decide_eq_true in Hnd.
    assert (Hall : Forall (fun kx => forallb unit_ok kx.1 = true /\ exists s, ser_parses kx.2 s) l).
    { apply (Forall_forallb_impl (fun '(k, x) => forallb unit_ok k && json_faithful x)); [|exact Hv].
      eapply Forall_impl; [exact IHl|]. intros [k x] H H'. simpl in *.
      apply andb_prop in H' as [H1 H2]. split; [exact H1 | exact (H H2)]. }
    destruct (ser_members l) as [|m ms] eqn:Hms.
    + apply ser_members_nil in Hms; [subst l | exact Hall].
      exists [123; 125]. split; [reflexivity|].
      split; [eexists _, _; split; [reflexivity|]; split; [reflexivity | lia]|].
      intros [|f] rest Hf _; [simpl in Hf; lia | reflexivity].
    + exists ([123] ++ join_comma (m :: ms) ++ [125]).
      split; [rewrite SerializeJSONProperty_JObj, Hms; reflexivity|].
      split; [eexists _, _; split; [reflexivity|]; split; [reflexivity | lia]|].
      intros [|f] rest Hf _; [simpl in Hf; lia|].
      assert (Hne : l <> []) by (intros ->; discriminate).
      pose proof (members_parse l rest Hall Hne [] ltac:(exact Hnd) f) as HE.
      rewrite Hms in HE.
      assert (HJ : exists t', join_comma (m :: ms) = 34 :: t').
      { destruct l as [|[k x] r]; [done|]. destruct (Forall_inv Hall) as [_ [sx (Hsx & _)]].
        simpl in Hsx. simpl in Hms. rewrite Hsx in Hms. injection Hms as <- _.
        rewrite join_comma_cons. eexists. reflexivity. }
      destruct HJ as [t' HJ]. rewrite HJ in HE, Hf |- *.
      simpl app. cbn [parse_value]. simpl skip_ws. cbv iota. simpl Z.eqb. cbv iota.
      rewrite skip_ws_cons by reflexivity. change (34 =? 125) with false. cbv iota.
      simpl app in HE. rewrite <- app_assoc. simpl app. rewrite HE; [reflexivity|].
      rewrite !length_app in Hf. simpl in Hf |- *. lia.
Qed.

Lemma JSON_parse_stringify (v : jval) :
  json_faithful v = true -> JSON_parse (JSON_stringify_string v) = Some v.
Proof.
  intros Hv. destruct (serialize_parse v Hv) as (s & Hs & _ & Hp).
  unfold JSON_stringify_string, JSON_stringify. rewrite Hs.
  unfold JSON_parse. specialize (Hp (S (length s)) [] ltac:(lia) I).
  rewrite app_nil_r in Hp. rewrite Hp. reflexivity.
Qed.

Lemma btoa_some (s b : jstr) :
  btoa s = Some b -> forallb is_byte s = true /\ b = base64_encode s.
Proof.
  unfold btoa. destruct (forallb is_byte s); [intros H; injection H as <-; done | discriminate].
Qed.

Lemma policy_param_ne_input : policy_param <> lit "x-medoro-signature-input".
Proof. intros H. apply (f_equal (@length Z)) in H. vm_compute in H. discriminate. Qed.

Lemma policy_param_ne_sig : policy_param <> lit "x-medoro-signature".
Proof. intros H. apply (f_equal (@length Z)) in H. vm_compute in H. discriminate. Qed.

(** Claim C3, as amended: for a store command whose policy is a JSON
    value that JSON can carry exactly (no [undefined], no NaN, no
    infinity, no negative zero, no repeated key in an object, every
    string made of code units), whenever [createSignedUrl] succeeds, the
    [x-medoro-policy] parameter of the signed URL decodes (atob, then
    JSON.parse) to that very policy. *)
Theorem createSignedUrl_policy_roundtrip (origin keyId : jstr)
    (new_URL : jstr -> jstr -> option url_rec)
    (sign : sign_request -> result sign_output client_error)
    (c : MedoroDataplaneCommand) (policy : jval) (content : option jstr)
    (e : option jsnum) (st st' : state) (su : signed_url) :
  json_faithful policy = true ->
  createSignedUrl origin keyId new_URL sign (CPut c policy content) e st = (Ret (Ok su), st') ->
  decoded_policy (url_at st' (signedUrl su)) = Some policy.
Proof.
  intros Hv Hrun. unfold createSignedUrl in Hrun.
  destruct (js_lt _ 10 || js_gt _ 604800); [unfold_M; discriminate|].
  destruct (new_URL _ origin) as [u0|]; unfold_M; simpl in Hrun; [|discriminate].
  destruct (btoa _) as [b|] eqn:Hb; simpl in Hrun; [|discriminate].
  destruct (sign _) as [out|err]; simpl in Hrun; [|discriminate].
  injection Hrun as <- <-. simpl.
  unfold update_obj, url_at; cbn [st_heap st_next].
  repeat (rewrite ?lookup_insert_eq, ?(lookup_insert_ne _ (S _) (st_next _)) by lia; cbn [st_heap st_next]).
  unfold decoded_policy. simpl url_query.
  rewrite params_get_set_ne by exact policy_param_ne_sig.
  rewrite params_get_set_ne by exact policy_param_ne_input.
  rewrite params_get_set.
  apply btoa_some in Hb as [Hbytes ->].
  rewrite atob_base64_encode by exact Hbytes.
  apply JSON_parse_stringify. exact Hv.
Qed.

(** Claim C3 fails as stated: with an infinite bound and a member left
    [undefined], the policy read back from the signed URL has [null] for
    the bound and no member for the [undefined] one. *)
Lemma createSignedUrl_policy_not_roundtrip :
  let decoded :=
    match createSignedUrl demo_origin (lit "key-1") demo_new_URL demo_sign demo_put_infinite None
            st_with_headers with
    | (Ret (Ok su), st) => decoded_policy (url_at st (signedUrl su))
    | _ => None
    end in
  decoded = Some (JObj [(lit "apiPutV1",
                         JObj [(lit "conditions",
                                JObj [(lit "content_length", JObj [(lit "lte", JNull)])])])])
  /\ decoded <> Some policy_infinite_undefined.
Proof.
  cbv zeta. split; [vm_compute; reflexivity|].
  vm_compute. discriminate.
Qed.

Lemma createSignedUrl_policy_roundtrip_witness :
  json_faithful demo_policy = true /\
  createSignedUrl demo_origin (lit "key-1") demo_new_URL demo_sign demo_put None st_with_headers
  = (Ret (Ok (mkSignedUrl 2 PUT)), demo_st_after demo_put) /\
  decoded_policy (url_at (demo_st_after demo_put) 2) = Some demo_policy.
Proof.
  split; [vm_compute; reflexivity|]. split; [vm_compute; reflexivity|].
  apply (createSignedUrl_policy_roundtrip demo_origin (lit "key-1") demo_new_URL demo_sign
           (mkCommand PUT (lit "photos/cat.png") 0%nat) demo_policy (Some (lit "data")) None
           st_with_headers (demo_st_after demo_put) (mkSignedUrl 2 PUT));
    vm_compute; reflexivity.
Defined.

Lemma createSignedUrl_signs_policy_witness :
  exists calls,
    st_trace (demo_st_after demo_put) = calls ++ st_trace st_with_headers /\ calls <> [] /\
    forall r, ESign r ∈ calls -> sr_signatureInputs r = base_signature_inputs ++ [SIQueryParam policy_param].
Proof.
  pose proof (createSignedUrl_signs_policy demo_origin (lit "key-1") demo_new_URL demo_sign
                (mkCommand PUT (lit "photos/cat.png") 0%nat) demo_policy (Some (lit "data")) None
                st_with_headers) as H.
  unfold demo_st_after.
  change (CPut (mkCommand PUT (lit "photos/cat.png") 0%nat) demo_policy (Some (lit "data")))
    with demo_put in H.
  destruct (createSignedUrl demo_origin (lit "key-1") demo_new_URL demo_sign demo_put None
              st_with_headers) as [o st'] eqn:E.
  destruct H as [calls [Htr Hc]].
  exists calls. split; [exact Htr|]. split.
  - intros ->. vm_compute in E. injection E as _ <-. vm_compute in Htr. discriminate.
  - intros r Hr. exact (proj1 (Hc r Hr)).
Defined.

Lemma createSignedUrl_frame_witness :
  fst (createSignedUrl demo_origin (lit "key-1") demo_new_URL demo_sign demo_put None
         st_with_headers) = Ret (Ok (mkSignedUrl 2 PUT)) /\
  (st_next st_with_headers <= 2)%nat /\
  st_heap (demo_st_after demo_put) !! 0%nat = st_heap st_with_headers !! 0%nat.
Proof.
  pose proof (createSignedUrl_frame demo_origin (lit "key-1") demo_new_URL demo_sign demo_put None
                st_with_headers) as H.
  unfold demo_st_after.
  destruct (createSignedUrl demo_origin (lit "key-1") demo_new_URL demo_sign demo_put None
              st_with_headers) as [o st'] eqn:E.
  destruct H as [Hframe Hsu].
  assert (Ho : o = Ret (Ok (mkSignedUrl 2 PUT))).
  { vm_compute in E. injection E as <- _. reflexivity. }
  split; [exact Ho|]. split.
  - exact (Hsu (mkSignedUrl 2 PUT) Ho).
  - apply Hframe. vm_compute. lia.
Defined.

Lemma send_store_remove_classified_witness :
  is_get demo_put = false /\
  createSignedUrl demo_origin (lit "key-1") demo_new_URL demo_sign demo_put None st_with_headers
  = (Ret (Ok (mkSignedUrl 2 PUT)), demo_st_after demo_put) /\
  fetch_returning resp_details_zero
    (send_request demo_put (mkSignedUrl 2 PUT) (demo_st_after demo_put))
  = FetchResolved resp_details_zero /\
  fst (send demo_origin (lit "key-1") demo_new_URL demo_sign (fetch_returning resp_details_zero)
         demo_put st_with_headers)
  = Ret (match parseJsonResponse resp_details_zero with
         | Err e => Err e
         | Ok d => Ok (SendData d)
         end).
Proof.
  split; [reflexivity|]. split; [vm_compute; reflexivity|]. split; [reflexivity|].
  apply (send_store_remove_classified demo_origin (lit "key-1") demo_new_URL demo_sign
           (fetch_returning resp_details_zero) demo_put st_with_headers (demo_st_after demo_put)
           (mkSignedUrl 2 PUT) resp_details_zero);
    [reflexivity | vm_compute; reflexivity | reflexivity].
Defined.

Lemma send_fetch_dispatch_witness :
  createSignedUrl demo_origin (lit "key-1") demo_new_URL demo_sign demo_get None st_with_headers
  = (Ret (Ok (mkSignedUrl 2 GET)), demo_st_after demo_get) /\
  fetch_returning resp_500_success
    (send_request demo_get (mkSignedUrl 2 GET) (demo_st_after demo_get))
  = FetchResolved resp_500_success /\
  fst (send demo_origin (lit "key-1") demo_new_URL demo_sign (fetch_returning resp_500_success)
         demo_get st_with_headers)
  = Ret (if response_ok resp_500_success then Ok (SendRaw resp_500_success)
         else match parseJsonResponse resp_500_success with
              | Err e => Err e
              | Ok _ => Err (api_error resp_500_success)
              end).
Proof.
  split; [vm_compute; reflexivity|]. split; [reflexivity|].
  apply (send_fetch_dispatch demo_origin (lit "key-1") demo_new_URL demo_sign
           (fetch_returning resp_500_success) (mkCommand GET (lit "photos/cat.png") 0%nat)
           st_with_headers (demo_st_after demo_get) (mkSignedUrl 2 GET) resp_500_success);
    [vm_compute; reflexivity | reflexivity].
Defined.

Lemma send_api_error_origin_witness :
  createSignedUrl demo_origin (lit "key-1") demo_new_URL demo_sign demo_get None st_with_headers
  = (Ret (Ok (mkSignedUrl 2 GET)), demo_st_after demo_get) /\
  fetch_returning resp_500_success
    (send_request demo_get (mkSignedUrl 2 GET) (demo_st_after demo_get))
  = FetchResolved resp_500_success /\
  etype (api_error resp_500_success) = lit "api_error" /\
  fst (send demo_origin (lit "key-1") demo_new_URL demo_sign (fetch_returning resp_500_success)
         demo_get st_with_headers)
  = Ret (Err (api_error resp_500_success)).
Proof.
  assert (H1 : createSignedUrl demo_origin (lit "key-1") demo_new_URL demo_sign demo_get None
                 st_with_headers = (Ret (Ok (mkSignedUrl 2 GET)), demo_st_after demo_get))
    by (vm_compute; reflexivity).
  assert (H2 : fetch_returning resp_500_success
                 (send_request demo_get (mkSignedUrl 2 GET) (demo_st_after demo_get))
               = FetchResolved resp_500_success) by reflexivity.
  pose proof (send_api_error_origin demo_origin (lit "key-1") demo_new_URL demo_sign
                (fetch_returning resp_500_success) demo_get st_with_headers
                (demo_st_after demo_get) (mkSignedUrl 2 GET) resp_500_success H1 H2)
    as (_ & Htype & Hget & _).
  split; [exact H1|]. split; [exact H2|]. split; [exact Htype|].
  exact (Hget eq_refl eq_refl (JNum (NFin false 1 0)) ltac:(vm_compute; reflexivity)).
Defined.

(** ** Further properties of the client *)

Lemma strip10_val (fuel : nat) (M E : Z) :
  E <= (strip10 fuel M E).2 /\ (strip10 fuel M E).1 * 10 ^ ((strip10 fuel M E).2 - E) = M.
Proof.
  revert M E. induction fuel as [|f IH]; intros M E; simpl.
  - split; [lia|]. rewrite Z.sub_diag. lia.
  - destruct (M mod 10 =? 0) eqn:Hm; simpl.
    + apply Z.eqb_eq in Hm. destruct (IH (M / 10) (E + 1)) as [H1 H2].
      split; [lia|].
      replace ((strip10 f (M / 10) (E + 1)).2 - E) with (((strip10 f (M / 10) (E + 1)).2 - (E + 1)) + 1) by lia.
      rewrite Z.pow_add_r by lia. rewrite Z.mul_assoc, H2.
      pose proof (Z.div_mod M 10). lia.
    + split; [lia|]. rewrite Z.sub_diag. lia.
Qed.

Lemma num_of_Z_val (z : Z) :
  (z = 0 /\ num_of_Z z = NZero false) \/
  exists m e, num_of_Z z = NFin (z <? 0) m e /\ 0 <= e /\ (if z <? 0 then - m else m) * 10 ^ e = z.
Proof.
  unfold num_of_Z, mk_dec.
  destruct (Z.abs z =? 0) eqn:Hz.
  - left. apply Z.eqb_eq in Hz. assert (z = 0) by lia. subst. split; reflexivity.
  - right. destruct (strip10_val (Pos.size_nat (Z.to_pos (Z.abs z))) (Z.abs z) 0) as [H1 H2].
    destruct (strip10 _ (Z.abs z) 0) as [m e]. simpl in *.
    exists m, e. split; [reflexivity|]. split; [lia|].
    rewrite Z.sub_0_r in H2. apply Z.eqb_neq in Hz.
    destruct (z <? 0) eqn:Hneg; [apply Z.ltb_lt in Hneg | apply Z.ltb_ge in Hneg];
      rewrite ?Z.mul_opp_l.
    all: lia.
Qed.

Lemma js_lt_num_of_Z (z c : Z) : js_lt (num_of_Z z) c = (z <? c).
Proof.
  destruct (num_of_Z_val z) as [[-> ->] | (m & e & -> & He & Hv)].
  - unfold js_lt, num_cmp_Z. destruct (Z.compare_spec 0 c), (Z.ltb_spec 0 c); simpl; try reflexivity; lia.
  - unfold js_lt, num_cmp_Z. rewrite (proj2 (Z.leb_le 0 e) He), Hv.
    destruct (Z.compare_spec z c), (Z.ltb_spec z c); simpl; try reflexivity; lia.
Qed.

Lemma js_gt_num_of_Z (z c : Z) : js_gt (num_of_Z z) c = (c <? z).
Proof.
  destruct (num_of_Z_val z) as [[-> ->] | (m & e & -> & He & Hv)].
  - unfold js_gt, num_cmp_Z. destruct (Z.compare_spec 0 c), (Z.ltb_spec c 0); simpl; try reflexivity; lia.
  - unfold js_gt, num_cmp_Z. rewrite (proj2 (Z.leb_le 0 e) He), Hv.
    destruct (Z.compare_spec z c), (Z.ltb_spec c z); simpl; try reflexivity; lia.
Qed.



Lemma cons_neq_self {A} (x : A) (l : list A) : x :: l <> l.
Proof. intros H. apply (f_equal length) in H. simpl in H. lia. Qed.

(** The outcome of [createSignedUrl] follows its signing call: a
    signing error is returned unchanged; a signature gives a signed URL
    with the command's method, which is the signed URL with
    [x-medoro-signature-input] and [x-medoro-signature] set to the
    signing output. *)
Theorem createSignedUrl_signed_url (origin keyId : jstr)
    (new_URL : jstr -> jstr -> option url_rec)
    (sign : sign_request -> result sign_output client_error)
    (command : command) (e : option jsnum) (st st' : state) o (r : sign_request) :
  createSignedUrl origin keyId new_URL sign command e st = (o, st') ->
  st_trace st' = ESign r :: st_trace st ->
  match sign r with
  | Err err => o = Ret (Err err)
  | Ok out =>
      exists su, o = Ret (Ok su) /\ su_method su = method (base command) /\
        url_at st' (signedUrl su)
        = url_set_param (lit "x-medoro-signature") (signature out)
            (url_set_param (lit "x-medoro-signature-input") (signatureInput out) (sr_url r))
  end.
Proof.
  intros Hrun Htr. unfold createSignedUrl in Hrun.
  destruct (js_lt _ 10 || js_gt _ 604800); unfold_M.
  { injection Hrun as <- <-. exfalso. exact (cons_neq_self _ _ (eq_sym Htr)). }
  destruct (new_URL _ origin) as [u0|]; simpl in Hrun.
  2:{ injection Hrun as <- <-. exfalso. exact (cons_neq_self _ _ (eq_sym Htr)). }
  destruct command as [c policy content|c|c]; simpl in Hrun.
  1: destruct (btoa _) as [b|]; simpl in Hrun;
     [| injection Hrun as <- <-; exfalso; exact (cons_neq_self _ _ (eq_sym Htr))].
  all: destruct (sign _) as [out|err] eqn:Hs; simpl in Hrun; injection Hrun as <- <-;
    rewrite ?update_obj_trace in Htr; cbn [st_trace] in Htr; injection Htr as Hr;
    rewrite <- Hr, Hs; [|reflexivity].
  all: eexists; split; [reflexivity|]; split; [reflexivity|]; simpl.
  all: unfold update_obj, url_at; cbn [st_heap st_next];
    repeat (rewrite ?lookup_insert_eq, ?(lookup_insert_ne _ (S _) (st_next _)) by lia;
            cbn [st_heap st_next]); reflexivity.
Qed.

(** The URL that is signed is [new URL(key, origin)]; a store command
    only sets [x-medoro-policy] on it and adds that parameter to the
    signed components, while a fetch or remove command signs the four
    base components over the URL as it is. *)
Theorem createSignedUrl_signed_request_url (origin keyId : jstr)
    (new_URL : jstr -> jstr -> option url_rec)
    (sign : sign_request -> result sign_output client_error)
    (command : command) (e : option jsnum) (st st' : state) o (r : sign_request) (u0 : url_rec) :
  new_URL (key (base command)) origin = Some u0 ->
  createSignedUrl origin keyId new_URL sign command e st = (o, st') ->
  st_trace st' = ESign r :: st_trace st ->
  match command with
  | CPut _ policy _ =>
      sr_signatureInputs r = base_signature_inputs ++ [SIQueryParam policy_param] /\
      exists b, btoa (JSON_stringify_string policy) = Some b /\
                sr_url r = url_set_param policy_param b u0
  | _ => sr_signatureInputs r = base_signature_inputs /\ sr_url r = u0
  end.
Proof.
  intros Hu Hrun Htr. unfold createSignedUrl in Hrun.
  destruct (js_lt _ 10 || js_gt _ 604800); unfold_M.
  { injection Hrun as <- <-. exfalso. exact (cons_neq_self _ _ (eq_sym Htr)). }
  rewrite Hu in Hrun. simpl in Hrun.
  destruct command as [c policy content|c|c]; simpl in Hrun.
  1: destruct (btoa _) as [b|] eqn:Hb; simpl in Hrun;
     [| injection Hrun as <- <-; exfalso; exact (cons_neq_self _ _ (eq_sym Htr))].
  all: destruct (sign _) as [out|err]; simpl in Hrun; injection Hrun as <- <-;
    rewrite ?update_obj_trace in Htr; cbn [st_trace] in Htr; injection Htr as <-; simpl.
  all: try (split; [reflexivity|]; exists b; split; [reflexivity|]).
  all: try (split; [reflexivity|]).
  all: unfold update_obj, url_at; cbn [st_heap st_next];
    repeat (rewrite ?lookup_insert_eq; cbn [st_heap st_next]); reflexivity.
Qed.


(** An integer expiry below 10 or above 604800 is refused with the
    validation error and leaves the state unchanged. *)
Theorem createSignedUrl_integer_expiry_rejected (origin keyId : jstr)
    (new_URL : jstr -> jstr -> option url_rec)
    (sign : sign_request -> result sign_output client_error)
    (command : command) (n : Z) (st : state) :
  n < 10 \/ 604800 < n ->
  createSignedUrl origin keyId new_URL sign command (Some (num_of_Z n)) st
  = (Ret (Err expiry_error), st).
Proof.
  intros Hn. apply createSignedUrl_rejects_out_of_range.
  rewrite js_lt_num_of_Z, js_gt_num_of_Z.
  destruct Hn as [Hn|Hn]; [rewrite (proj2 (Z.ltb_lt _ _) Hn) | rewrite (proj2 (Z.ltb_lt _ _) Hn), orb_true_r]; reflexivity.
Qed.


(** When [createSignedUrl] does not produce a signed URL, [send]
    returns its error (or lets its exception through) and calls nothing
    else: no [fetch]. *)
Theorem send_stops_without_signed_url (origin keyId : jstr)
    (new_URL : jstr -> jstr -> option url_rec)
    (sign : sign_request -> result sign_output client_error)
    (fetch : fetch_request -> fetch_result)
    (command : command) (st st1 : state) o :
  createSignedUrl origin keyId new_URL sign command None st = (o, st1) ->
  (forall su, o <> Ret (Ok su)) ->
  exists o', send origin keyId new_URL sign fetch command st = (o', st1) /\
    (forall e, o = Ret (Err e) -> o' = Ret (Err e)) /\
    (forall x, o = Throw x -> o' = Throw x).
Proof.
  intros Hc Hno. unfold send. unfold mbind at 1, M_bind at 1. rewrite Hc.
  destruct o as [[su|err]|x].
  - exfalso. exact (Hno su eq_refl).
  - eexists. split; [reflexivity|]. split; [intros e He; injection He as ->; reflexivity|].
    intros x Hx; discriminate.
  - eexists. split; [reflexivity|]. split; [intros e He; discriminate|].
    intros x' Hx; injection Hx as ->; reflexivity.
Qed.

(** Once the URL is signed, [send] makes exactly one [fetch] call, to
    the signed URL with the command's method and headers and, for a store
    command only, its content as body; it changes no object; a rejected
    [fetch] gives a [network_error] naming the method and the rejection
    message. *)
Theorem send_fetch_call (origin keyId : jstr)
    (new_URL : jstr -> jstr -> option url_rec)
    (sign : sign_request -> result sign_output client_error)
    (fetch : fetch_request -> fetch_result)
    (command : command) (st st1 : state) (su : signed_url) :
  createSignedUrl origin keyId new_URL sign command None st = (Ret (Ok su), st1) ->
  let req := mkFetchRequest (url_at st1 (signedUrl su)) (method (base command))
               (headers_at st1 (headers (base command)))
               (match command with CPut _ _ content => content | _ => None end) in
  exists o', send origin keyId new_URL sign fetch command st
             = (o', mkState (st_heap st1) (st_next st1) (st_clock st1) (EFetch req :: st_trace st1)) /\
    (forall msg, fetch req = FetchRejected msg ->
       o' = Ret (Err (mkError (lit "network_error")
                        (lit "Network error during " ++ method_string (method (base command))
                         ++ lit ": " ++ msg) None None None))).
Proof.
  intros Hc req.
  remember (send origin keyId new_URL sign fetch command st) as res eqn:Hres.
  exists (fst res).
  unfold send in Hres. unfold mbind at 1, M_bind at 1 in Hres. rewrite Hc in Hres.
  unfold_M. change (send_request command su st1) with req in Hres. cbn beta iota in Hres.
  subst res.
  destruct (fetch req) as [msg|resp] eqn:Hf.
  - split; [reflexivity|]. intros msg' H. injection H as ->. reflexivity.
  - split; [|intros msg' H; discriminate].
    apply injective_projections; [reflexivity|].
    simpl. destruct command; simpl;
      [destruct (parseJsonResponse resp)
      | destruct (response_ok resp); simpl; [|destruct (parseJsonResponse resp)]
      | destruct (parseJsonResponse resp)]; reflexivity.
Qed.

(** The classifier succeeds with [d] exactly when the content type
    contains [application/json], the body parses as JSON and the value is
    a success envelope whose data is [d]. *)
Theorem parseJsonResponse_ok_iff (r : response) (d : jval) :
  parseJsonResponse r = Ok d <->
  json_content_type r = true /\
  exists raw, JSON_parse (body r) = Some raw /\ ApiResponseSchema_parse raw = Some (EnvSuccess d).
Proof.
  unfold parseJsonResponse. split.
  - destruct (json_content_type r); simpl; [|discriminate].
    destruct (JSON_parse (body r)) as [raw|]; [|discriminate].
    destruct (ApiResponseSchema_parse raw) as [[d'|c t m det]|] eqn:Hs; try discriminate.
    intros H. injection H as ->. split; [reflexivity|]. exists raw. split; [reflexivity | exact Hs].
  - intros [Hct (raw & Hp & Hs)]. rewrite Hct, Hp. simpl. rewrite Hs. reflexivity.
Qed.

(** A success envelope that the server serialized with JSON.stringify
    is classified as its data, for data JSON carries exactly. *)
Theorem parseJsonResponse_success_roundtrip (r : response) (d : jval) :
  json_content_type r = true ->
  json_faithful d = true ->
  body r = JSON_stringify_string (JObj [(lit "success", JBool true); (lit "data", d)]) ->
  parseJsonResponse r = Ok d.
Proof.
  intros Hct Hd Hb. unfold parseJsonResponse. rewrite Hct, Hb. simpl negb. cbv iota.
  rewrite JSON_parse_stringify.
  - reflexivity.
  - simpl. rewrite Hd. vm_compute. reflexivity.
Qed.

(** An error envelope that the server serialized with JSON.stringify
    is classified as its error: type, message and code taken over, the
    details kept, and the context the details when they are truthy, the
    status text otherwise. *)
Theorem parseJsonResponse_failure_roundtrip (r : response) (c t m : jstr) (det : option jval) :
  json_content_type r = true ->
  forallb unit_ok c = true -> forallb unit_ok t = true -> forallb unit_ok m = true ->
  (match det with Some v => json_faithful v | None => true end) = true ->
  body r = JSON_stringify_string
             (JObj [(lit "success", JBool false);
                    (lit "error", JObj ([(lit "code", JStr c); (lit "type", JStr t);
                                         (lit "message", JStr m)] ++
                                        match det with Some v => [(lit "details", v)] | None => [] end))]) ->
  parseJsonResponse r
  = Err (mkError t m (Some c) det
           (Some (match det with
                  | Some v => if truthy v then v else JStr (statusText r)
                  | None => JStr (statusText r)
                  end))).
Proof.
  intros Hct Hc Ht Hm Hdet Hb. unfold parseJsonResponse. rewrite Hct, Hb. simpl negb. cbv iota.
  rewrite JSON_parse_stringify.
  - destruct det; reflexivity.
  - destruct det as [v|]; simpl; rewrite Hc, Ht, Hm; [rewrite Hdet|]; vm_compute; reflexivity.
Qed.



Lemma createSignedUrl_signed_url_witness :
  createSignedUrl demo_origin (lit "key-1") demo_new_URL demo_sign demo_get None st_with_headers
  = (Ret (Ok (mkSignedUrl 2 GET)), demo_st_after demo_get) /\
  st_trace (demo_st_after demo_get)
  = ESign (last_sign_request (demo_st_after demo_get)) :: st_trace st_with_headers /\
  url_at (demo_st_after demo_get) 2
  = url_set_param (lit "x-medoro-signature") (lit "c2lnbmF0dXJl")
      (url_set_param (lit "x-medoro-signature-input") (lit "medoro=(sig-params)")
         (sr_url (last_sign_request (demo_st_after demo_get)))).
Proof.
  assert (H1 : createSignedUrl demo_origin (lit "key-1") demo_new_URL demo_sign demo_get None
                 st_with_headers = (Ret (Ok (mkSignedUrl 2 GET)), demo_st_after demo_get))
    by (vm_compute; reflexivity).
  assert (H2 : st_trace (demo_st_after demo_get)
               = ESign (last_sign_request (demo_st_after demo_get)) :: st_trace st_with_headers)
    by (vm_compute; reflexivity).
  pose proof (createSignedUrl_signed_url demo_origin (lit "key-1") demo_new_URL demo_sign demo_get
                None st_with_headers (demo_st_after demo_get) _ _ H1 H2) as H.
  unfold demo_sign in H. destruct H as (su & Hsu & _ & Hurl).
  injection Hsu as <-.
  split; [exact H1|]. split; [exact H2 | exact Hurl].
Defined.

Lemma createSignedUrl_signed_request_url_witness :
  sr_signatureInputs (last_sign_request (demo_st_after demo_get)) = base_signature_inputs /\
  sr_url (last_sign_request (demo_st_after demo_get))
  = mkURL (lit "https") (lit "bucket.example.com") ([47] ++ lit "photos/cat.png") [] [].
Proof.
  exact (createSignedUrl_signed_request_url demo_origin (lit "key-1") demo_new_URL demo_sign demo_get
           None st_with_headers (demo_st_after demo_get) _ (last_sign_request (demo_st_after demo_get))
           _ eq_refl ltac:(vm_compute; reflexivity) ltac:(vm_compute; reflexivity)).
Defined.

Lemma createSignedUrl_integer_expiry_rejected_witness :
  createSignedUrl demo_origin (lit "key-1") demo_new_URL demo_sign demo_get (Some (num_of_Z 604801))
    st_with_headers = (Ret (Err expiry_error), st_with_headers).
Proof.
  apply createSignedUrl_integer_expiry_rejected. right. lia.
Defined.


Lemma send_stops_without_signed_url_witness :
  send demo_origin (lit "key-1") demo_new_URL demo_sign_fail (fetch_returning resp_500_success)
    demo_get st_with_headers
  = (Ret (Err demo_sign_error),
     snd (createSignedUrl demo_origin (lit "key-1") demo_new_URL demo_sign_fail demo_get None
            st_with_headers)).
Proof.
  destruct (send_stops_without_signed_url demo_origin (lit "key-1") demo_new_URL demo_sign_fail
              (fetch_returning resp_500_success) demo_get st_with_headers
              (snd (createSignedUrl demo_origin (lit "key-1") demo_new_URL demo_sign_fail demo_get None
                      st_with_headers))
              (Ret (Err demo_sign_error))
              ltac:(vm_compute; reflexivity) ltac:(intros su; discriminate))
    as (o' & Hs & He & _).
  rewrite Hs, (He _ eq_refl). reflexivity.
Defined.

Lemma send_fetch_call_witness :
  fst (send demo_origin (lit "key-1") demo_new_URL demo_sign (fetch_rejecting (lit "offline"))
         demo_put st_with_headers)
  = Ret (Err (mkError (lit "network_error") (lit "Network error during PUT: offline")
                None None None)).
Proof.
  destruct (send_fetch_call demo_origin (lit "key-1") demo_new_URL demo_sign
              (fetch_rejecting (lit "offline")) demo_put st_with_headers
              (demo_st_after demo_put) (mkSignedUrl 2 PUT) ltac:(vm_compute; reflexivity))
    as (o' & Hs & Hrej).
  rewrite Hs. simpl fst. rewrite (Hrej (lit "offline") eq_refl). vm_compute. reflexivity.
Defined.

Lemma parseJsonResponse_ok_iff_witness :
  parseJsonResponse resp_success_data
  = Ok (JArr [JStr (lit "photos/cat.png"); JNum (NFin false 2 0)]).
Proof.
  apply (proj2 (parseJsonResponse_ok_iff resp_success_data _)).
  split; [vm_compute; reflexivity|].
  exists (JObj [(lit "success", JBool true);
                (lit "data", JArr [JStr (lit "photos/cat.png"); JNum (NFin false 2 0)])]).
  split; vm_compute; reflexivity.
Defined.

Lemma parseJsonResponse_success_roundtrip_witness :
  parseJsonResponse resp_success_data
  = Ok (JArr [JStr (lit "photos/cat.png"); JNum (NFin false 2 0)]).
Proof.
  apply parseJsonResponse_success_roundtrip; vm_compute; reflexivity.
Defined.

Lemma parseJsonResponse_failure_roundtrip_witness :
  parseJsonResponse resp_failure_details
  = Err (mkError (lit "access_denied") (lit "Key not allowed") (Some (lit "E403"))
           (Some (JObj [(lit "key", JStr (lit "photos/cat.png"))]))
           (Some (JObj [(lit "key", JStr (lit "photos/cat.png"))]))).
Proof.
  apply (parseJsonResponse_failure_roundtrip resp_failure_details (lit "E403") (lit "access_denied")
           (lit "Key not allowed") (Some (JObj [(lit "key", JStr (lit "photos/cat.png"))])));
    vm_compute; reflexivity.
Defined.

